(** * Quick-fix application engine of the SonarLint MCP server

    A shallow embedding of the TypeScript sources
      - [src/tools/apply-all-quick-fixes.ts]  (handleApplyAllQuickFixes)
      - [src/tools/apply-quick-fix.ts]        (handleApplyQuickFix)
      - [src/utils/filesystem.ts]             (notifyFileSystemChanged)
      - [src/utils/scope.ts]                  (getOrCreateScope)
      - [src/utils/sloop.ts]                  (ensureSloopBridge)
    together with the fragments of the JavaScript runtime they rely on
    (truthiness of [||], [String.prototype.substring], [Array.prototype.splice],
    the stable [Array.prototype.sort], [split]/[join], [path.dirname] and the
    MD5 digest of [crypto]).

    Numbers are integers ([Z]); an absent property is [None].  Strings are
    [string]; one [ascii] stands for one code unit. *)

From Stdlib Require Import ZArith String Ascii List Lia Bool Permutation Sorted.
From stdpp Require Import base option list strings pretty gmap.

Local Open Scope string_scope.
Local Open Scope list_scope.
Local Open Scope Z_scope.

(* ===================================================================== *)
(** * Part I: definitions                                                 *)
(* ===================================================================== *)

(** ** JavaScript runtime fragments *)

Module JS.

(** [x || d] on an optional number: [undefined] and [0] are falsy. *)
Definition num_or (x : option Z) (d : Z) : Z :=
  match x with
  | Some v => if v =? 0 then d else v
  | None => d
  end.

(** [x || d] on an optional string: [undefined] and [''] are falsy. *)
Definition str_or (x : option string) (d : string) : string :=
  match x with
  | Some EmptyString => d
  | Some s => s
  | None => d
  end.

(** Truthiness of an optional string, as tested by [if (s)]. *)
Definition str_truthy (x : option string) : bool :=
  match x with
  | Some (String _ _) => true
  | _ => false
  end.

Fixpoint str_take (n : nat) (s : string) : string :=
  match n, s with
  | S n', String c s' => String c (str_take n' s')
  | _, _ => EmptyString
  end.

Fixpoint str_drop (n : nat) (s : string) : string :=
  match n, s with
  | S n', String _ s' => str_drop n' s'
  | _, _ => s
  end.

(** Argument clamping of [substring]: negative becomes 0, larger than the
    length becomes the length. *)
Definition clamp (n : Z) (len : nat) : nat :=
  Z.to_nat (Z.min (Z.max n 0) (Z.of_nat len)).

(** [s.substring(start, end)]; [end_ = None] is the one-argument call.
    The two clamped indices are swapped when out of order. *)
Definition substring (s : string) (start : Z) (end_ : option Z) : string :=
  let len := String.length s in
  let a := clamp start len in
  let b := match end_ with Some e => clamp e len | None => len end in
  let lo := Nat.min a b in
  let hi := Nat.max a b in
  str_take (hi - lo) (str_drop lo s).

(** [arr[i]] for a numeric index: [undefined] outside [0 .. length-1]. *)
Definition index {A} (l : list A) (i : Z) : option A :=
  if i <? 0 then None else l !! Z.to_nat i.

(** [arr.splice(start, deleteCount, item)], returning the mutated array. *)
Definition splice {A} (l : list A) (start deleteCount : Z) (item : A) : list A :=
  let len := Z.of_nat (length l) in
  let s := if start <? 0 then Z.max (len + start) 0 else Z.min start len in
  let c := Z.min (Z.max deleteCount 0) (len - s) in
  take (Z.to_nat s) l ++ item :: drop (Z.to_nat (s + c)) l.

Definition newline : ascii := "010"%char.

(** [s.split('\n')] *)
Fixpoint split_lines (s : string) : list string :=
  match s with
  | EmptyString => [EmptyString]
  | String c s' =>
      if Ascii.eqb c newline then EmptyString :: split_lines s'
      else match split_lines s' with
           | l :: ls => String c l :: ls
           | [] => [String c EmptyString]
           end
  end.

(** [lines.join('\n')] *)
Fixpoint join_lines (ls : list string) : string :=
  match ls with
  | [] => EmptyString
  | [l] => l
  | l :: ls' => l +:+ String newline (join_lines ls')
  end.

(** [Array.prototype.sort] with a comparator: the language requires a
    stable sort, so for a consistent comparator the result is the unique
    stable arrangement, computed here by insertion from the right. *)
Section Sort.
Context {A : Type} (cmp : A -> A -> Z).

Fixpoint insert_sorted (x : A) (l : list A) : list A :=
  match l with
  | [] => [x]
  | y :: l' => if cmp x y <=? 0 then x :: y :: l' else y :: insert_sorted x l'
  end.

Definition sort (l : list A) : list A := foldr insert_sorted [] l.
End Sort.

(** Thrown values. *)
Inductive error : Type :=
| TypeError (msg : string)
| SystemError (code description path : string)
| SloopError (message userMessage : string) (recoverable : bool)
| OtherError (msg : string).

(** [error instanceof Error ? error.message : String(error)] *)
Definition error_message (e : error) : string :=
  match e with
  | TypeError msg => msg
  | SystemError code description path =>
      code +:+ ": " +:+ description +:+ ", open '" +:+ path +:+ "'"
  | SloopError message _ _ => message
  | OtherError msg => msg
  end.

(** The errors of [fs] met here. *)
Definition ENOENT (path : string) : error :=
  SystemError "ENOENT" "no such file or directory" path.

Definition EACCES (path : string) : error :=
  SystemError "EACCES" "permission denied" path.

(** Reading a property of [undefined]. *)
Definition undefined_property (prop : string) : error :=
  TypeError ("Cannot read properties of undefined (reading '" +:+ prop +:+ "')").

End JS.

(** ** Node's [path.dirname] (POSIX flavour) *)

Module NodePath.

Definition slash : ascii := "/"%char.

Definition is_slash_at (path : string) (i : nat) : bool :=
  match String.get i path with
  | Some c => Ascii.eqb c slash
  | None => false
  end.

(** The backwards scan [for (i = path.length - 1; i >= 1; --i)]: the index
    of the last separator that is followed by a name, if any. *)
Fixpoint dirname_scan (path : string) (i : nat) (matchedSlash : bool) : option nat :=
  match i with
  | O => None
  | S i' =>
      if is_slash_at path i
      then (if matchedSlash then dirname_scan path i' true else Some i)
      else dirname_scan path i' false
  end.

Definition dirname (path : string) : string :=
  match path with
  | EmptyString => "."
  | String c _ =>
      let hasRoot := Ascii.eqb c slash in
      match dirname_scan path (String.length path - 1) true with
      | None => if hasRoot then "/" else "."
      | Some e => if hasRoot && Nat.eqb e 1 then "//" else JS.str_take e path
      end
  end.

End NodePath.

(** ** [createHash('md5').update(s).digest('hex')] *)

Module Crypto.

Definition mask32 (x : Z) : Z := Z.land x 0xffffffff.
Definition add32 (x y : Z) : Z := mask32 (x + y).
Definition not32 (x : Z) : Z := Z.lxor x 0xffffffff.
Definition rotl32 (x : Z) (n : Z) : Z :=
  mask32 (Z.lor (Z.shiftl x n) (Z.shiftr x (32 - n))).

Definition K : list Z :=
  [ 0xd76aa478; 0xe8c7b756; 0x242070db; 0xc1bdceee; 0xf57c0faf; 0x4787c62a; 0xa8304613; 0xfd469501;
    0x698098d8; 0x8b44f7af; 0xffff5bb1; 0x895cd7be; 0x6b901122; 0xfd987193; 0xa679438e; 0x49b40821;
    0xf61e2562; 0xc040b340; 0x265e5a51; 0xe9b6c7aa; 0xd62f105d; 0x02441453; 0xd8a1e681; 0xe7d3fbc8;
    0x21e1cde6; 0xc33707d6; 0xf4d50d87; 0x455a14ed; 0xa9e3e905; 0xfcefa3f8; 0x676f02d9; 0x8d2a4c8a;
    0xfffa3942; 0x8771f681; 0x6d9d6122; 0xfde5380c; 0xa4beea44; 0x4bdecfa9; 0xf6bb4b60; 0xbebfbc70;
    0x289b7ec6; 0xeaa127fa; 0xd4ef3085; 0x04881d05; 0xd9d4d039; 0xe6db99e5; 0x1fa27cf8; 0xc4ac5665;
    0xf4292244; 0x432aff97; 0xab9423a7; 0xfc93a039; 0x655b59c3; 0x8f0ccc92; 0xffeff47d; 0x85845dd1;
    0x6fa87e4f; 0xfe2ce6e0; 0xa3014314; 0x4e0811a1; 0xf7537e82; 0xbd3af235; 0x2ad7d2bb; 0xeb86d391 ].

Definition shifts : list Z :=
  [ 7; 12; 17; 22; 7; 12; 17; 22; 7; 12; 17; 22; 7; 12; 17; 22;
    5; 9; 14; 20; 5; 9; 14; 20; 5; 9; 14; 20; 5; 9; 14; 20;
    4; 11; 16; 23; 4; 11; 16; 23; 4; 11; 16; 23; 4; 11; 16; 23;
    6; 10; 15; 21; 6; 10; 15; 21; 6; 10; 15; 21; 6; 10; 15; 21 ].

Definition bytes_of_string (s : string) : list Z :=
  map (fun c => Z.of_N (N_of_ascii c)) (list_ascii_of_string s).

(** [n] bytes of [x], least significant first. *)
Fixpoint le_bytes (n : nat) (x : Z) : list Z :=
  match n with
  | O => []
  | S n' => Z.land x 0xff :: le_bytes n' (Z.shiftr x 8)
  end.

Fixpoint le_word (bs : list Z) : Z :=
  match bs with
  | [] => 0
  | b :: bs' => Z.lor b (Z.shiftl (le_word bs') 8)
  end.

(** Padding to a multiple of 64 bytes: [0x80], zeros, 64-bit bit length. *)
Definition pad (msg : list Z) : list Z :=
  let len := Z.of_nat (length msg) in
  let zeros := Z.to_nat ((55 - len) mod 64) in
  msg ++ [0x80] ++ repeat 0 zeros ++ le_bytes 8 (8 * len).

Fixpoint words (n : nat) (bs : list Z) : list Z :=
  match n with
  | O => []
  | S n' => le_word (take 4 bs) :: words n' (drop 4 bs)
  end.

Fixpoint blocks (n : nat) (bs : list Z) : list (list Z) :=
  match n with
  | O => []
  | S n' => words 16 (take 64 bs) :: blocks n' (drop 64 bs)
  end.

Record state : Type := { sa : Z; sb : Z; sc : Z; sd : Z }.

Definition init : state :=
  {| sa := 0x67452301; sb := 0xefcdab89; sc := 0x98badcfe; sd := 0x10325476 |}.

Definition step (M : list Z) (st : state) (i : nat) : state :=
  let zi := Z.of_nat i in
  let '(f, g) :=
    if zi <? 16 then
      (Z.lor (Z.land (sb st) (sc st)) (Z.land (not32 (sb st)) (sd st)), zi)
    else if zi <? 32 then
      (Z.lor (Z.land (sd st) (sb st)) (Z.land (not32 (sd st)) (sc st)), (5 * zi + 1) mod 16)
    else if zi <? 48 then
      (Z.lxor (sb st) (Z.lxor (sc st) (sd st)), (3 * zi + 5) mod 16)
    else
      (Z.lxor (sc st) (Z.lor (sb st) (not32 (sd st))), (7 * zi) mod 16) in
  let f' := add32 (add32 (add32 f (sa st)) (nth i K 0)) (nth (Z.to_nat g) M 0) in
  {| sa := sd st; sd := sc st; sc := sb st;
     sb := add32 (sb st) (rotl32 f' (nth i shifts 0)) |}.

Definition compress (st : state) (M : list Z) : state :=
  let st' := fold_left (step M) (seq 0 64) st in
  {| sa := add32 (sa st) (sa st'); sb := add32 (sb st) (sb st');
     sc := add32 (sc st) (sc st'); sd := add32 (sd st) (sd st') |}.

Definition digest (msg : list Z) : list Z :=
  let padded := pad msg in
  let st := fold_left compress (blocks (length padded / 64) padded) init in
  le_bytes 4 (sa st) ++ le_bytes 4 (sb st) ++ le_bytes 4 (sc st) ++ le_bytes 4 (sd st).

Definition hex_digit (n : Z) : ascii :=
  nth (Z.to_nat n) (list_ascii_of_string "0123456789abcdef") "0"%char.

Fixpoint hex_of_bytes (bs : list Z) : string :=
  match bs with
  | [] => EmptyString
  | b :: bs' =>
      String (hex_digit (Z.shiftr b 4)) (String (hex_digit (Z.land b 0xf)) (hex_of_bytes bs'))
  end.

Definition md5_hex (s : string) : string := hex_of_bytes (digest (bytes_of_string s)).

Definition is_hex_digit (c : ascii) : bool :=
  existsb (Ascii.eqb c) (list_ascii_of_string "0123456789abcdef").

Fixpoint all_hex (s : string) : bool :=
  match s with
  | EmptyString => true
  | String c s' => is_hex_digit c && all_hex s'
  end.

End Crypto.

(** ** Raw issues as delivered by the backend *)

Record Range : Type := {
  r_startLine : option Z;
  r_startLineOffset : option Z;
  r_endLine : option Z;
  r_endLineOffset : option Z
}.

Record TextEdit : Type := {
  range : option Range;
  newText : option string
}.

Record FileEdit : Type := {
  textEdits : option (list TextEdit)
}.

Record QuickFix : Type := {
  message : option string;
  inputFileEdits : option (list FileEdit);
  fileEdits : option (list FileEdit)
}.

Record Issue : Type := {
  textRange : option Range;
  startLine : option Z;
  ruleKey : string;
  quickFixes : option (list QuickFix)
}.

(** ** Edit Planner (apply-all-quick-fixes.ts, lines 31-57) *)

(** [issue.quickFixes && issue.quickFixes.length > 0] *)
Definition hasQuickFixes (issue : Issue) : bool :=
  match quickFixes issue with
  | Some (_ :: _) => true
  | _ => false
  end.

Definition issuesWithQuickFixes (rawIssues : list Issue) : list Issue :=
  filter (fun issue => hasQuickFixes issue = true) rawIssues.

(** [issue.textRange?.startLine || issue.startLine || 0] *)
Definition issueLine (issue : Issue) : Z :=
  JS.num_or (textRange issue ≫= r_startLine) (JS.num_or (startLine issue) 0).

(** The comparator [(a, b) => bLine - aLine]. *)
Definition compareIssues (a b : Issue) : Z := issueLine b - issueLine a.

Definition sortedIssues (withFixes : list Issue) : list Issue :=
  JS.sort compareIssues withFixes.

(** The planned application order of [handleApplyAllQuickFixes]. *)
Definition plan (rawIssues : list Issue) : list Issue :=
  sortedIssues (issuesWithQuickFixes rawIssues).

(** The edits a quick fix carries: [inputFileEdits || fileEdits || []]
    (an array, even an empty one, is truthy). *)
Definition fixFileEdits (quickFix : QuickFix) : list FileEdit :=
  match inputFileEdits quickFix with
  | Some l => l
  | None => match fileEdits quickFix with
            | Some l => l
            | None => []
            end
  end.

(** All text edits of a quick fix, in application order of the file edits. *)
Definition fixTextEdits (quickFix : QuickFix) : list TextEdit :=
  concat (map (fun fe => default [] (textEdits fe)) (fixFileEdits quickFix)).

(** ** Edit Applier (apply-all-quick-fixes.ts, lines 76-105;
       apply-quick-fix.ts, lines 67-104) *)

(** [(edit.range?.startLine || 1) - 1] *)
Definition editStartLine (edit : TextEdit) : Z :=
  JS.num_or (range edit ≫= r_startLine) 1 - 1.

(** [edit.range?.startLineOffset || 0] *)
Definition editStartCol (edit : TextEdit) : Z :=
  JS.num_or (range edit ≫= r_startLineOffset) 0.

(** [(edit.range?.endLine || startLine + 1) - 1] *)
Definition editEndLine (edit : TextEdit) : Z :=
  JS.num_or (range edit ≫= r_endLine) (editStartLine edit + 1) - 1.

(** [lines[endLine]?.length] *)
Definition lineLength (lines : list string) (i : Z) : option Z :=
  (fun l => Z.of_nat (String.length l)) <$> JS.index lines i.

(** [edit.range?.endLineOffset || lines[endLine]?.length || 0] *)
Definition editEndCol (lines : list string) (edit : TextEdit) : Z :=
  JS.num_or (range edit ≫= r_endLineOffset)
            (JS.num_or (lineLength lines (editEndLine edit)) 0).

(** [edit.newText || ''] *)
Definition editNewText (edit : TextEdit) : string :=
  JS.str_or (newText edit) "".

(** [lines[i].substring(...)]: the receiver must be defined. *)
Definition lineAt (lines : list string) (i : Z) : JS.error + string :=
  match JS.index lines i with
  | Some l => inr l
  | None => inl (JS.undefined_property "substring")
  end.

(** One iteration of [for (const edit of sortedEdits)]. *)
Definition applyTextEdit (lines : list string) (edit : TextEdit)
  : JS.error + list string :=
  let startLine := editStartLine edit in
  let startCol := editStartCol edit in
  let endLine := editEndLine edit in
  let endCol := editEndCol lines edit in
  let newText := editNewText edit in
  if startLine =? endLine then
    match lineAt lines startLine with
    | inl e => inl e
    | inr currentLine =>
        inr (<[Z.to_nat startLine :=
                 JS.substring currentLine 0 (Some startCol) +:+ newText
                 +:+ JS.substring currentLine endCol None]> lines)
    end
  else
    match lineAt lines startLine with
    | inl e => inl e
    | inr first =>
        let firstLine := JS.substring first 0 (Some startCol) +:+ newText in
        match lineAt lines endLine with
        | inl e => inl e
        | inr last =>
            let lastLine := JS.substring last endCol None in
            inr (JS.splice lines startLine (endLine - startLine + 1)
                           (firstLine +:+ lastLine))
        end
    end.

(** The comparator of the per-fix sort:
    [(a, b) => (b.range?.startLine || 0) - (a.range?.startLine || 0)]. *)
Definition compareEdits (a b : TextEdit) : Z :=
  JS.num_or (range b ≫= r_startLine) 0 - JS.num_or (range a ≫= r_startLine) 0.

Fixpoint applyTextEdits (lines : list string) (edits : list TextEdit)
  : JS.error + list string :=
  match edits with
  | [] => inr lines
  | edit :: rest =>
      match applyTextEdit lines edit with
      | inl e => inl e
      | inr lines' => applyTextEdits lines' rest
      end
  end.

(** Body of [for (const fileEdit of fileEdits)]. *)
Definition applyFileEdit (lines : list string) (fileEdit : FileEdit)
  : JS.error + list string :=
  match textEdits fileEdit with
  | Some edits => applyTextEdits lines (JS.sort compareEdits edits)
  | None => inr lines
  end.

Fixpoint applyFileEdits (lines : list string) (edits : list FileEdit)
  : JS.error + list string :=
  match edits with
  | [] => inr lines
  | fileEdit :: rest =>
      match applyFileEdit lines fileEdit with
      | inl e => inl e
      | inr lines' => applyFileEdits lines' rest
      end
  end.

(** The edits of one quick fix applied to the line buffer. *)
Definition applyQuickFix (lines : list string) (quickFix : QuickFix)
  : JS.error + list string :=
  let edits := fixFileEdits quickFix in
  if (0 <? Z.of_nat (length edits)) then applyFileEdits lines edits else inr lines.

(** ** The server's world: disk, process-wide state, backend traffic *)

(** [ClientFileDto] of the [file/didUpdateFileSystem] notification
    ([isTest] is always [null] and [charset] always ['UTF-8']). *)
Record ClientFileDto : Type := {
  dto_uri : string;
  dto_ideRelativePath : string;
  dto_configScopeId : string;
  dto_fsPath : string;
  dto_content : string;
  dto_detectedLanguage : string;
  dto_isUserDefined : bool
}.

(** Observable effects, in the order they happen. *)
Inductive Event : Type :=
| Connect
| AddConfigurationScope (scopeId name : string)
| AnalyzeFilesAndTrack (scopeId : string) (filePaths : list string)
| DidOpenFile (configurationScopeId fileUri : string)
| DidUpdateFileSystem (addedFiles changedFiles : list ClientFileDto)
                      (removedFiles : list string)
| WriteFile (path content : string)
| Sleep (ms : Z).

Record World : Type := {
  files : gmap string string;        (* regular files on disk, by path *)
  unwritable : gset string;          (* paths whose write is refused *)
  scopeMap : list (string * string); (* state.ts: project root -> scope id,
                                        in insertion order *)
  sloopBridge : bool;                (* state.ts: is the bridge set? *)
  trace : list Event;
  stderr : list string               (* console.error of the catch blocks *)
}.

(** What lies outside the repository: the analysis backend behind
    [SloopBridge], the functions of Node's [path] that only shape
    notification payloads, and the [JSON.stringify] rendering of the
    target issue that the single-fix tool dumps for debugging. *)
Record Env : Type := {
  extname : string -> string;
  relative : string -> string -> string;
  debugDump : Issue -> string;
  pluginsInstalled : bool;
  connectError : option string;
  analysisReply : list Event -> gmap string string -> JS.error + option (list Issue);
  notificationError : Event -> option JS.error
}.

(** Computations: state passing with exceptions; effects performed before
    a throw persist. *)
Definition M (A : Type) : Type := World -> (JS.error + A) * World.

Definition ret {A} (a : A) : M A := fun w => (inr a, w).

Definition throw {A} (e : JS.error) : M A := fun w => (inl e, w).

Definition bind {A B} (m : M A) (k : A -> M B) : M B :=
  fun w =>
    match m w with
    | (inr a, w') => k a w'
    | (inl e, w') => (inl e, w')
    end.

Notation "'let!' x ':=' m 'in' k" := (bind m (fun x => k))
  (at level 10, x pattern, m at level 100, k at level 200).

(** [try { m } catch (e) { ... }], with the outcome handed to the caller. *)
Definition attempt {A} (m : M A) : M (JS.error + A) :=
  fun w => let '(r, w') := m w in (inr r, w').

Definition lift {A} (r : JS.error + A) : M A := fun w => (r, w).

Definition emit (ev : Event) : M unit :=
  fun w => (inr tt,
            {| files := files w; unwritable := unwritable w;
               scopeMap := scopeMap w; sloopBridge := sloopBridge w;
               trace := trace w ++ [ev]; stderr := stderr w |}).

Definition consoleError (msg : string) : M unit :=
  fun w => (inr tt,
            {| files := files w; unwritable := unwritable w;
               scopeMap := scopeMap w; sloopBridge := sloopBridge w;
               trace := trace w; stderr := stderr w ++ [msg] |}).

Definition existsSync (path : string) : M bool :=
  fun w => (inr (bool_decide (is_Some (files w !! path))), w).

Definition readFileSync (path : string) : M string :=
  fun w =>
    match files w !! path with
    | Some content => (inr content, w)
    | None => (inl (JS.ENOENT path), w)
    end.

Definition writeFileSync (path content : string) : M unit :=
  fun w =>
    if bool_decide (path ∈ unwritable w)
    then (inl (JS.EACCES path), w)
    else (inr tt,
          {| files := <[path := content]> (files w); unwritable := unwritable w;
             scopeMap := scopeMap w; sloopBridge := sloopBridge w;
             trace := trace w ++ [WriteFile path content]; stderr := stderr w |}).

(** [Map.prototype.get] and [Map.prototype.set] on an insertion-ordered map. *)
Fixpoint mapGet (m : list (string * string)) (key : string) : option string :=
  match m with
  | [] => None
  | (k, v) :: m' => if String.eqb k key then Some v else mapGet m' key
  end.

Fixpoint mapSet (m : list (string * string)) (key value : string)
  : list (string * string) :=
  match m with
  | [] => [(key, value)]
  | (k, v) :: m' =>
      if String.eqb k key then (k, value) :: m' else (k, v) :: mapSet m' key value
  end.

(** ** Scope Resolver (utils/scope.ts) *)

Definition scopeIdFor (projectRoot : string) : string :=
  "scope-" +:+ JS.substring (Crypto.md5_hex projectRoot) 0 (Some 8).

Definition getOrCreateScope (filePath : string) : M string :=
  fun w =>
    let projectRoot := NodePath.dirname filePath in
    let scopeId := mapGet (scopeMap w) projectRoot in
    if JS.str_truthy scopeId then (inr (default "" scopeId), w)
    else
      let newScopeId := scopeIdFor projectRoot in
      let tr :=
        if sloopBridge w
        then trace w ++ [AddConfigurationScope newScopeId ("Project: " +:+ projectRoot)]
        else trace w in
      (inr newScopeId,
       {| files := files w; unwritable := unwritable w;
          scopeMap := mapSet (scopeMap w) projectRoot newScopeId;
          sloopBridge := sloopBridge w; trace := tr; stderr := stderr w |}).

(** A run of further scope resolutions, one per path. *)
Definition resolveAll (filePaths : list string) (w : World) : World :=
  fold_left (fun w filePath => snd (getOrCreateScope filePath w)) filePaths w.

(** Result records of the batch. *)
Record AppliedFix : Type := { af_line : Z; af_rule : string; af_message : string }.
Record FailedFix : Type := { ff_line : Z; ff_rule : string; ff_error : string }.

(** The data the tools render into their text answer. *)
Inductive ApplyAllResult : Type :=
| NoQuickFixesAvailable (filePath : string) (totalIssues : nat)
| QuickFixesApplied (filePath : string) (appliedFixes : list AppliedFix)
                    (failedFixes : list FailedFix) (remainingIssues : list Issue).

Inductive ApplyResult : Type :=
| QuickFixApplied (filePath : string) (line : Z) (rule : string) (fixMessage : string).

Definition fileNotFound (filePath : string) : JS.error :=
  JS.SloopError ("File not found: " +:+ filePath)
    ("The file " +:+ filePath +:+ " does not exist. Please check the path and try again.")
    false.

Definition issueNotFound (line : Z) (rule : string) : JS.error :=
  JS.SloopError "Issue not found"
    ("No issue found at line " +:+ pretty line +:+ " with rule " +:+ rule
     +:+ ". The file may have changed since the last analysis.")
    false.

Definition noQuickFixAvailable (line : Z) (rule : string) : JS.error :=
  JS.SloopError "No quick fix available"
    ("The issue at line " +:+ pretty line +:+ " (" +:+ rule
     +:+ ") does not have an automated quick fix available.")
    false.

(** Observers used to state properties of a run. *)
Definition appliedCount (r : ApplyAllResult) : nat :=
  match r with
  | NoQuickFixesAvailable _ _ => 0
  | QuickFixesApplied _ appliedFixes _ _ => length appliedFixes
  end.

Definition failedCount (r : ApplyAllResult) : nat :=
  match r with
  | NoQuickFixesAvailable _ _ => 0
  | QuickFixesApplied _ _ failedFixes _ => length failedFixes
  end.

Definition isWrite (ev : Event) : bool :=
  match ev with
  | WriteFile _ _ => true
  | _ => false
  end.

Definition writes (tr : list Event) : list Event := List.filter isWrite tr.

(** The events a notification may add: connecting the bridge and the two
    messages to the backend. *)
Definition isNotification (ev : Event) : bool :=
  match ev with
  | Connect | DidOpenFile _ _ | DidUpdateFileSystem _ _ _ => true
  | _ => false
  end.

(** Two worlds with the same disk. *)
Definition sameDisk (w v : World) : Prop :=
  files w = files v /\ unwritable w = unwritable v.

(** [quiet w w']: going from [w] to [w'] left the disk alone and performed
    no write. *)
Definition quiet (w w' : World) : Prop :=
  files w' = files w /\ unwritable w' = unwritable w
  /\ writes (trace w') = writes (trace w).

(** [notified w w']: going from [w] to [w'] was quiet, logged nothing and
    added only notification traffic to the trace. *)
Definition notified (w w' : World) : Prop :=
  quiet w w' /\ stderr w' = stderr w
  /\ exists evs, trace w' = trace w ++ evs /\ forallb isNotification evs = true.

(** The line logged when a notification fails, the caught error standing
    in it by its message (Node prints the error object in full). *)
Definition notifyFailureLog (filePath : string) (err : JS.error) : string :=
  "[FS] Failed to notify file system update for " +:+ filePath
  +:+ ": " +:+ JS.error_message err.

(** ** Language detection (utils/language.ts) *)

Definition lowerChar (c : ascii) : ascii :=
  let n := nat_of_ascii c in
  if (65 <=? n)%nat && (n <=? 90)%nat then ascii_of_nat (n + 32) else c.

Definition upperChar (c : ascii) : ascii :=
  let n := nat_of_ascii c in
  if (97 <=? n)%nat && (n <=? 122)%nat then ascii_of_nat (n - 32) else c.

Fixpoint mapChars (f : ascii -> ascii) (s : string) : string :=
  match s with
  | EmptyString => EmptyString
  | String c s' => String (f c) (mapChars f s')
  end.

Definition toLowerCase : string -> string := mapChars lowerChar.
Definition toUpperCase : string -> string := mapChars upperChar.

Definition languageMap : list (string * string) :=
  [ (".js", "javascript"); (".jsx", "javascript"); (".ts", "typescript");
    (".tsx", "typescript"); (".py", "python"); (".java", "java"); (".go", "go");
    (".php", "php"); (".rb", "ruby"); (".html", "html"); (".css", "css");
    (".xml", "xml") ].

Definition enumMap : list (string * string) :=
  [ ("javascript", "JS"); ("typescript", "TS"); ("python", "PYTHON");
    ("java", "JAVA"); ("go", "GO"); ("php", "PHP"); ("ruby", "RUBY");
    ("html", "HTML"); ("css", "CSS"); ("xml", "XML") ].

Definition languageToEnum (language : string) : string :=
  JS.str_or (mapGet enumMap language) (toUpperCase language).

Section Server.

Variable env : Env.

Definition detectLanguage (filePath : string) : string :=
  let ext := toLowerCase (extname env filePath) in
  JS.str_or (mapGet languageMap ext) "unknown".

(** ** Bridge management (utils/sloop.ts) *)

Definition ensureSloopBridge : M unit :=
  fun w =>
    if sloopBridge w then (inr tt, w)
    else if negb (pluginsInstalled env) then
      (inl (JS.SloopError "Backend not found"
              ("SonarLint backend not installed. The postinstall script may have failed. "
               +:+ "Try reinstalling: npm install -g @nielspeter/sonarlint-mcp-server")
              false), w)
    else
      match connectError env with
      | Some e =>
          (inl (JS.SloopError ("Failed to initialize SLOOP: " +:+ e)
                  "Failed to start SonarLint backend. Please check that Java is installed and try again."
                  true), w)
      | None =>
          (inr tt,
           {| files := files w; unwritable := unwritable w;
              scopeMap := scopeMap w; sloopBridge := true;
              trace := trace w ++ [Connect]; stderr := stderr w |})
      end.

(** [(await bridge.analyzeFilesAndTrack(scopeId, paths)).rawIssues || []] *)
Definition analyzeFilesAndTrack (scopeId : string) (filePaths : list string)
  : M (list Issue) :=
  let! _ := emit (AnalyzeFilesAndTrack scopeId filePaths) in
  fun w =>
    match analysisReply env (trace w) (files w) with
    | inl e => (inl e, w)
    | inr rawIssues => (inr (default [] rawIssues), w)
    end.

Definition sendNotification (ev : Event) : M unit :=
  match notificationError env ev with
  | Some e => throw e
  | None => emit ev
  end.

(** ** Cache Invalidation Notifier (utils/filesystem.ts) *)

(** The reverse lookup [for (const [root, scopeId] of scopeMap.entries())]. *)
Fixpoint rootOfScope (m : list (string * string)) (configScopeId : string)
  : option string :=
  match m with
  | [] => None
  | (root, scopeId) :: m' =>
      if String.eqb scopeId configScopeId then Some root
      else rootOfScope m' configScopeId
  end.

(** The [try] block of [notifyFileSystemChanged].  The progress lines it
    prints with [console.error] are left out: [stderr] holds the lines of
    the [catch] blocks only. *)
Definition notifyBody (filePath configScopeId uri relativePath : string) : M unit :=
  let! _ := ensureSloopBridge in
  let language := detectLanguage filePath in
  let languageEnum := languageToEnum language in
  let! _ := sendNotification (DidOpenFile configScopeId uri) in
  let! fileContent := readFileSync filePath in
  let clientFileDto :=
    {| dto_uri := uri; dto_ideRelativePath := relativePath;
       dto_configScopeId := configScopeId; dto_fsPath := filePath;
       dto_content := fileContent; dto_detectedLanguage := languageEnum;
       dto_isUserDefined := true |} in
  sendNotification (DidUpdateFileSystem [] [clientFileDto] []).

Definition notifyFileSystemChanged (filePath configScopeId : string) : M unit :=
  let uri := "file://" +:+ filePath in
  fun w =>
    let found := rootOfScope (scopeMap w) configScopeId in
    let projectRoot :=
      if JS.str_truthy found then default "" found else NodePath.dirname filePath in
    let relativePath := relative env projectRoot filePath in
    (let! outcome := attempt (notifyBody filePath configScopeId uri relativePath) in
     match outcome with
     | inr _ => ret tt
     | inl err =>
         consoleError (notifyFailureLog filePath err)
     end) w.

(** ** Edit Applier loop (apply-all-quick-fixes.ts, lines 63-126) *)

(** The [try] block of one iteration.  [quickFix] is
    [issue.quickFixes[0]], possibly [undefined]. *)
Definition applyFixToFile (filePath : string) (quickFix : option QuickFix)
  : M string :=
  let! fileContent := readFileSync filePath in
  let lines := JS.split_lines fileContent in
  match quickFix with
  | None => throw (JS.undefined_property "inputFileEdits")
  | Some quickFix =>
      let! lines' := lift (applyQuickFix lines quickFix) in
      let! _ := writeFileSync filePath (JS.join_lines lines') in
      ret (JS.str_or (message quickFix) "Applied automated fix")
  end.

Fixpoint applyLoop (filePath : string) (issues : list Issue)
         (appliedFixes : list AppliedFix) (failedFixes : list FailedFix)
  : M (list AppliedFix * list FailedFix) :=
  match issues with
  | [] => ret (appliedFixes, failedFixes)
  | issue :: rest =>
      let line := issueLine issue in
      let rule := ruleKey issue in
      match quickFixes issue with
      | None => throw (JS.undefined_property "0")
      | Some fixes =>
          let! outcome := attempt (applyFixToFile filePath (head fixes)) in
          match outcome with
          | inr msg =>
              applyLoop filePath rest
                (appliedFixes ++ [{| af_line := line; af_rule := rule; af_message := msg |}])
                failedFixes
          | inl err =>
              let! _ := consoleError ("[MCP] Failed to apply fix for " +:+ rule
                                      +:+ " at line " +:+ pretty line +:+ ": "
                                      +:+ JS.error_message err) in
              applyLoop filePath rest appliedFixes
                (failedFixes ++ [{| ff_line := line; ff_rule := rule;
                                    ff_error := JS.error_message err |}])
          end
      end
  end.

(** ** The tools *)

Definition handleApplyAllQuickFixes (filePath : string) : M ApplyAllResult :=
  let! present := existsSync filePath in
  if negb present then throw (fileNotFound filePath)
  else
    let! _ := ensureSloopBridge in
    let! scopeId := getOrCreateScope filePath in
    let! rawIssues := analyzeFilesAndTrack scopeId [filePath] in
    let withFixes := issuesWithQuickFixes rawIssues in
    if (length withFixes =? 0)%nat then
      ret (NoQuickFixesAvailable filePath (length rawIssues))
    else
      let sorted := sortedIssues withFixes in
      let! fixes := applyLoop filePath sorted [] [] in
      let appliedFixes := fst fixes in
      let failedFixes := snd fixes in
      let! _ := notifyFileSystemChanged filePath scopeId in
      let! _ := emit (Sleep 500) in
      let! remainingIssues := analyzeFilesAndTrack scopeId [filePath] in
      ret (QuickFixesApplied filePath appliedFixes failedFixes remainingIssues).

Definition debugPath : string := "/tmp/quickfix-debug.json".

(** [rawIssues.find(issue => issueLine === line && issue.ruleKey === rule)] *)
Definition isTarget (line : Z) (rule : string) (issue : Issue) : bool :=
  (issueLine issue =? line) && String.eqb (ruleKey issue) rule.

Definition handleApplyQuickFix (filePath : string) (line : Z) (rule : string)
  : M ApplyResult :=
  let! present := existsSync filePath in
  if negb present then throw (fileNotFound filePath)
  else
    let! _ := ensureSloopBridge in
    let! scopeId := getOrCreateScope filePath in
    let! rawIssues := analyzeFilesAndTrack scopeId [filePath] in
    match List.find (isTarget line rule) rawIssues with
    | None => throw (issueNotFound line rule)
    | Some targetIssue =>
        match quickFixes targetIssue with
        | None => throw (noQuickFixAvailable line rule)
        | Some nil => throw (noQuickFixAvailable line rule)
        | Some (quickFix :: _) =>
            let! _ := writeFileSync debugPath (debugDump env targetIssue) in
            let! fileContent := readFileSync filePath in
            let lines := JS.split_lines fileContent in
            let! lines' := lift (applyQuickFix lines quickFix) in
            let! written := attempt (writeFileSync filePath (JS.join_lines lines')) in
            match written with
            | inl err =>
                let! _ := consoleError ("[DEBUG] Error writing file: "
                                        +:+ JS.error_message err) in
                throw err
            | inr _ =>
                let! _ := notifyFileSystemChanged filePath scopeId in
                let! _ := emit (Sleep 500) in
                ret (QuickFixApplied filePath line rule
                       (JS.str_or (message quickFix) "Applied automated fix"))
            end
        end
    end.

End Server.

(** [edit] with its [range.endLineOffset] replaced. *)
Definition withEndOffset (edit : TextEdit) (offset : option Z) : TextEdit :=
  {| range := Some {| r_startLine := range edit ≫= r_startLine;
                      r_startLineOffset := range edit ≫= r_startLineOffset;
                      r_endLine := range edit ≫= r_endLine;
                      r_endLineOffset := offset |};
     newText := newText edit |}.

(** The multi-line rule in the words of the specification, for an edit
    from (0-based) line [startLine], column [startCol] to line [endLine],
    column [endCol]: the prefix of the start line before [startCol], the
    replacement text and the suffix of the end line from [endCol] onward,
    spliced as one line in place of the whole range. *)
Definition spec_multiLineEdit (lines : list string)
           (startLine startCol endLine endCol : nat) (text : string) : list string :=
  take startLine lines
  ++ (JS.str_take startCol (nth startLine lines "") +:+ text
      +:+ JS.str_drop endCol (nth endLine lines ""))
  :: drop (S endLine) lines.

(** ** Sample data, after tests/unit/apply-all-quick-fixes.test.ts *)

Module Sample.

Definition startingAt (line : Z) : Range :=
  {| r_startLine := Some line; r_startLineOffset := None;
     r_endLine := None; r_endLineOffset := None |}.

Definition span (l1 c1 l2 c2 : Z) : Range :=
  {| r_startLine := Some l1; r_startLineOffset := Some c1;
     r_endLine := Some l2; r_endLineOffset := Some c2 |}.

Definition replace (l1 c1 l2 c2 : Z) (text : string) : TextEdit :=
  {| range := Some (span l1 c1 l2 c2); newText := Some text |}.

Definition fixWith (description : string) (edits : list TextEdit) : QuickFix :=
  {| message := Some description; inputFileEdits := None;
     fileEdits := Some [ {| textEdits := Some edits |} ] |}.

(** [{ message: 'Remove unused variable' }]: a quick fix without edits. *)
Definition bareFix (description : string) : QuickFix :=
  {| message := Some description; inputFileEdits := None; fileEdits := None |}.

Definition issueAt (line : Z) (rule : string) (fixes : option (list QuickFix)) : Issue :=
  {| textRange := Some (startingAt line); startLine := None;
     ruleKey := rule; quickFixes := fixes |}.

(** [{ ruleKey: 'javascript:S1854', quickFixes: [{}] }]: no line info. *)
Definition issueNowhere (rule : string) (fixes : option (list QuickFix)) : Issue :=
  {| textRange := None; startLine := None; ruleKey := rule; quickFixes := fixes |}.

Definition unusedVariable : Issue :=
  issueAt 5 "javascript:S1481" (Some [bareFix "Remove unused variable"]).

Definition fourIssues : list Issue :=
  [ issueAt 5 "javascript:S1481" (Some [bareFix ""]);
    issueAt 15 "javascript:S3626" (Some [bareFix ""]);
    issueAt 10 "javascript:S1854" (Some [bareFix ""]);
    issueAt 3 "javascript:S138" (Some [bareFix ""]) ].

(** The file of the line-number test of the integration suite. *)
Definition sourceLines : list string :=
  [ "";
    "function test() {";
    "  var a = 1;";
    "  var b = 2;";
    "  var c = 3;";
    "";
    "  for (var i = 0; i < 10; i++) {";
    "    console.log(i);";
    "  }";
    "";
    "  return;";
    "}";
    "" ].

Definition fixedLines : list string :=
  [ "";
    "function test() {";
    "  const a = 1;";
    "  const b = 2;";
    "  const c = 3;";
    "";
    "  for (var i = 0; i < 10; i++) {";
    "    console.log(i);";
    "  }";
    "";
    "  ";
    "}";
    "" ].

Definition path : string := "/work/test-line-numbers.js".

Definition varToConst (line : Z) : Issue :=
  issueAt line "javascript:S3504"
    (Some [fixWith "Replace var with const" [replace line 2 line 5 "const"]]).

(** A fix computed against an older, longer snapshot: its range ends
    beyond the last line of the file. *)
Definition staleLoopFix : Issue :=
  issueAt 7 "javascript:S1154"
    (Some [fixWith "Use for-of" [replace 7 2 40 3 "for (const i of range) {"]]).

Definition removeReturn : Issue :=
  issueAt 11 "javascript:S3626"
    (Some [fixWith "Remove redundant return" [replace 11 2 11 9 ""]]).

Definition fiveIssues : list Issue :=
  [ varToConst 3; varToConst 4; varToConst 5; staleLoopFix; removeReturn ].

Definition disk (content : string) : World :=
  {| files := {[ path := content ]}; unwritable := ∅; scopeMap := [];
     sloopBridge := false; trace := []; stderr := [] |}.

(** A backend that connects and answers every analysis with [issues]. *)
Definition backend (issues : list Issue) : Env :=
  {| extname := fun _ => ".js"; relative := fun _ file => file;
     debugDump := fun issue => "targetIssue: " +:+ ruleKey issue;
     pluginsInstalled := true; connectError := None;
     analysisReply := fun _ _ => inr (Some issues);
     notificationError := fun _ => None |}.

(** The same backend refusing every notification. *)
Definition deafBackend (issues : list Issue) : Env :=
  {| extname := fun _ => ".js"; relative := fun _ file => file;
     debugDump := fun issue => "targetIssue: " +:+ ruleKey issue;
     pluginsInstalled := true; connectError := None;
     analysisReply := fun _ _ => inr (Some issues);
     notificationError := fun _ => Some (JS.OtherError "bridge closed") |}.

End Sample.

(** ** Further parts of the server *)

(** *** Observers of a text edit *)

(** The line an edit leaves in place of its range: the start line up to
    the start column, the new text, the end line from the end column. *)
Definition mergedLine (lines : list string) (edit : TextEdit) : string :=
  let first := default "" (JS.index lines (editStartLine edit)) in
  let last := default "" (JS.index lines (editEndLine edit)) in
  JS.str_take (Z.to_nat (editStartCol edit)) first +:+ editNewText edit
  +:+ JS.str_drop (Z.to_nat (editEndCol lines edit)) last.

(** The first buffer index an edit leaves after its merged line: the line
    after the end line, or the start line itself for an inverted range. *)
Definition resumeAt (edit : TextEdit) : nat :=
  if editStartLine edit <=? editEndLine edit
  then S (Z.to_nat (editEndLine edit))
  else Z.to_nat (editStartLine edit).

(** ** Error answers of the tools (errors.ts, index.ts) *)

(** The answer [{ content: [{ type: "text", text }], isError: true }]. *)
Record ToolError : Type := { errorText : string; isError : bool }.

(** [handleToolError]: the error is logged (rendered, like the other
    logged errors, by its message) and turned into an answer. *)
Definition handleToolError (error : JS.error) : M ToolError :=
  let! _ := consoleError ("[MCP] Error handling tool call: " +:+ JS.error_message error) in
  match error with
  | JS.SloopError _ userMessage _ =>
      ret {| errorText := "❌ **Error**: " +:+ userMessage; isError := true |}
  | _ =>
      ret {| errorText := "❌ **Error**: " +:+ JS.error_message error; isError := true |}
  end.

(** The callback registered for a tool:
    [try { return await handler(args); } catch (error) { return handleToolError(error); }] *)
Definition toolCallback {A} (handler : M A) : M (ToolError + A) :=
  let! outcome := attempt handler in
  match outcome with
  | inr answer => ret (inr answer)
  | inl error => let! response := handleToolError error in ret (inl response)
  end.

Definition applyQuickFixTool (env : Env) (filePath : string) (line : Z) (rule : string)
  : M (ToolError + ApplyResult) :=
  toolCallback (handleApplyQuickFix env filePath line rule).

Definition applyAllQuickFixesTool (env : Env) (filePath : string)
  : M (ToolError + ApplyAllResult) :=
  toolCallback (handleApplyAllQuickFixes env filePath).

(** The (line, rule) pair under which the batch reports an issue. *)
Definition issueKey (issue : Issue) : Z * string := (issueLine issue, ruleKey issue).
Definition appliedKey (a : AppliedFix) : Z * string := (af_line a, af_rule a).
Definition failedKey (f : FailedFix) : Z * string := (ff_line f, ff_rule f).

(** The text of an error answer: [error.userMessage] for a [SloopError],
    the error's message otherwise. *)
Definition shownMessage (error : JS.error) : string :=
  match error with
  | JS.SloopError _ userMessage _ => userMessage
  | _ => JS.error_message error
  end.

(** ** Issues as the analysis tools report them (types.ts, utils/transforms.ts) *)

(** A raw issue with the properties only the analysis tools read; [core]
    holds the ones the fix tools read as well. *)
Record RawIssue : Type := {
  core : Issue;
  raw_startColumn : option Z;
  raw_endLine : option Z;
  raw_endColumn : option Z;
  raw_severity : option string;
  raw_ruleDescriptionContextKey : option string;
  raw_primaryMessage : option string;
  raw_message : option string
}.

(** [TextEdit] of types.ts. *)
Record ReportedEdit : Type := {
  re_startLine : Z;
  re_startColumn : Z;
  re_endLine : Z;
  re_endColumn : Z;
  re_newText : string
}.

(** [QuickFix] of types.ts. *)
Record ReportedFix : Type := {
  rf_description : string;
  rf_edits : list ReportedEdit
}.

Record AnalysisIssue : Type := {
  ai_line : Z;
  ai_column : Z;
  ai_endLine : Z;
  ai_endColumn : Z;
  ai_severity : string;
  ai_rule : string;
  ai_ruleDescription : string;
  ai_message : string;
  ai_quickFix : option ReportedFix
}.

(** The inner [map] of [transformSloopIssues]: one text edit as reported. *)
Definition reportEdit (edit : TextEdit) : ReportedEdit :=
  {| re_startLine := JS.num_or (range edit ≫= r_startLine) 1;
     re_startColumn := JS.num_or (range edit ≫= r_startLineOffset) 0;
     re_endLine := JS.num_or (range edit ≫= r_endLine) 1;
     re_endColumn := JS.num_or (range edit ≫= r_endLineOffset) 0;
     re_newText := JS.str_or (newText edit) "" |}.

(** The quick fix attached to a reported issue: the first one, its edits
    flattened over the file edits in their order. *)
Definition reportFix (firstFix : QuickFix) : ReportedFix :=
  {| rf_description := JS.str_or (message firstFix) "Apply fix";
     rf_edits :=
       concat (map (fun fileEdit => map reportEdit (default [] (textEdits fileEdit)))
                   (fixFileEdits firstFix)) |}.

(** The callback of the [map] in [transformSloopIssues] (the debug line
    printed for an issue without line information is left out). *)
Definition transformSloopIssue (issue : RawIssue) : AnalysisIssue :=
  let textRange := textRange (core issue) in
  let startLine := startLine (core issue) in
  {| ai_line := JS.num_or (textRange ≫= r_startLine) (JS.num_or startLine 1);
     ai_column :=
       JS.num_or (textRange ≫= r_startLineOffset) (JS.num_or (raw_startColumn issue) 0);
     ai_endLine :=
       JS.num_or (textRange ≫= r_endLine)
         (JS.num_or (raw_endLine issue)
            (JS.num_or (textRange ≫= r_startLine) (JS.num_or startLine 1)));
     ai_endColumn :=
       JS.num_or (textRange ≫= r_endLineOffset)
         (JS.num_or (raw_endColumn issue)
            (JS.num_or (textRange ≫= r_startLineOffset)
               (JS.num_or (raw_startColumn issue) 0)));
     ai_severity := JS.str_or (raw_severity issue) "MAJOR";
     ai_rule := JS.str_or (Some (ruleKey (core issue))) "unknown";
     ai_ruleDescription := JS.str_or (raw_ruleDescriptionContextKey issue) "";
     ai_message :=
       JS.str_or (raw_primaryMessage issue) (JS.str_or (raw_message issue) "No description");
     ai_quickFix :=
       match quickFixes (core issue) with
       | Some (firstFix :: _) => Some (reportFix firstFix)
       | _ => None
       end |}.

Definition transformSloopIssues (rawIssues : list RawIssue) : list AnalysisIssue :=
  map transformSloopIssue rawIssues.

(** ** Summary of an analysis (utils/transforms.ts) *)

Record BySeverity : Type := {
  blocker : nat; critical : nat; major : nat; minor : nat; info : nat
}.

Record Summary : Type := {
  total : nat;
  bySeverity : BySeverity;
  rulesChecked : Z
}.

(** [if (severity in bySeverity) bySeverity[severity]++], as far as the
    five counters go. *)
Definition countSeverity (counts : BySeverity) (severity : string) : BySeverity :=
  if String.eqb severity "blocker" then
    {| blocker := S (blocker counts); critical := critical counts; major := major counts;
       minor := minor counts; info := info counts |}
  else if String.eqb severity "critical" then
    {| blocker := blocker counts; critical := S (critical counts); major := major counts;
       minor := minor counts; info := info counts |}
  else if String.eqb severity "major" then
    {| blocker := blocker counts; critical := critical counts; major := S (major counts);
       minor := minor counts; info := info counts |}
  else if String.eqb severity "minor" then
    {| blocker := blocker counts; critical := critical counts; major := major counts;
       minor := S (minor counts); info := info counts |}
  else if String.eqb severity "info" then
    {| blocker := blocker counts; critical := critical counts; major := major counts;
       minor := minor counts; info := S (info counts) |}
  else counts.

(** The five counters added up. *)
Definition counters (counts : BySeverity) : nat :=
  (blocker counts + critical counts + major counts + minor counts + info counts)%nat.

Section Summaries.

(** [String.prototype.toLowerCase]. *)
Variable lowerCase : string -> string.

Definition createSummary (issues : list AnalysisIssue) (rulesChecked : Z) : Summary :=
  {| total := length issues;
     bySeverity :=
       fold_left (fun counts issue => countSeverity counts (lowerCase (ai_severity issue)))
                 issues
                 {| blocker := 0; critical := 0; major := 0; minor := 0; info := 0 |};
     rulesChecked := rulesChecked |}.

End Summaries.

(** The severities that have a counter. *)
Definition counted (severity : string) : bool :=
  existsb (String.eqb severity) ["blocker"; "critical"; "major"; "minor"; "info"].

(** ** Files of a batch analysis grouped by scope (analyze-files.ts, lines 39-47) *)

(** [if (!m.has(k)) m.set(k, []); m.get(k).push(f)] on an insertion-ordered map. *)
Fixpoint groupPush (filesByScope : list (string * list string)) (scopeId filePath : string)
  : list (string * list string) :=
  match filesByScope with
  | [] => [(scopeId, [filePath])]
  | (k, scopeFiles) :: rest =>
      if String.eqb k scopeId then (k, scopeFiles ++ [filePath]) :: rest
      else (k, scopeFiles) :: groupPush rest scopeId filePath
  end.

Fixpoint groupFilesByScope (filePaths : list string)
         (filesByScope : list (string * list string))
  : M (list (string * list string)) :=
  match filePaths with
  | [] => ret filesByScope
  | filePath :: rest =>
      let! scopeId := getOrCreateScope filePath in
      groupFilesByScope rest (groupPush filesByScope scopeId filePath)
  end.

(** What holds of the groups once [seen] has been gone through. *)
Definition grouped (seen : list string) (groups : list (string * list string))
           (w : World) : Prop :=
  Permutation (concat (map snd groups)) seen
  /\ NoDup (map fst groups)
  /\ forall scopeId scopeFiles,
       (scopeId, scopeFiles) ∈ groups ->
       scopeFiles <> [] /\ sublist scopeFiles seen
       /\ forall filePath,
            filePath ∈ scopeFiles ->
            mapGet (scopeMap w) (NodePath.dirname filePath) = Some scopeId
            /\ JS.str_truthy (Some scopeId) = true.

(* ===================================================================== *)
(** * Part II: properties                                                 *)
(* ===================================================================== *)

(** ** The runtime fragments on known values *)

Example md5_of_empty : Crypto.md5_hex "" = "d41d8cd98f00b204e9800998ecf8427e".
Proof. vm_compute. reflexivity. Qed.

Example md5_of_abc : Crypto.md5_hex "abc" = "900150983cd24fb0d6963f7d28e17f72".
Proof. vm_compute. reflexivity. Qed.

Example dirname_values :
  map NodePath.dirname ["/a/b/c.js"; "/a.js"; "a.js"; "/a/b/"; ""; "/"; "a/b"]
  = ["/a/b"; "/"; "."; "/a"; "."; "/"; "a"].
Proof. reflexivity. Qed.

Example substring_values :
  JS.substring "hello world" 3 (Some 1) = "el"
  /\ JS.substring "hello" 2 None = "llo"
  /\ JS.substring "hello" (-3) (Some 99) = "hello".
Proof. repeat split. Qed.

Example splice_values :
  JS.splice ["a"; "b"; "c"; "d"] 1 2 "x" = ["a"; "x"; "d"]
  /\ JS.splice ["a"; "b"] 5 1 "x" = ["a"; "b"; "x"]
  /\ JS.splice ["a"; "b"] 1 (-1) "x" = ["a"; "x"; "b"].
Proof. repeat split. Qed.

Example split_join_values :
  JS.split_lines (JS.join_lines ["ab"; ""; "c"]) = ["ab"; ""; "c"]
  /\ JS.split_lines "" = [""]
  /\ JS.join_lines [] = "".
Proof. repeat split. Qed.

Example language_values :
  languageToEnum "typescript" = "TS" /\ languageToEnum "unknown" = "UNKNOWN".
Proof. split; reflexivity. Qed.

(** ** Strings and [substring] *)

Section StringFacts.

Lemma str_take_length n s :
  String.length (JS.str_take n s) = Nat.min n (String.length s).
Proof.
  revert s; induction n as [|n IH]; intros [|c s]; simpl; auto.
Qed.

Lemma str_drop_length n s :
  String.length (JS.str_drop n s) = (String.length s - n)%nat.
Proof.
  revert s; induction n as [|n IH]; intros [|c s]; simpl; auto.
Qed.

Lemma str_take_all n s : (String.length s <= n)%nat -> JS.str_take n s = s.
Proof.
  revert s; induction n as [|n IH]; intros [|c s] H; simpl in *; auto; try lia.
  f_equal. apply IH. lia.
Qed.

Lemma str_drop_all n s : (String.length s <= n)%nat -> JS.str_drop n s = "".
Proof.
  revert s; induction n as [|n IH]; intros [|c s] H; simpl in *; auto; try lia.
  apply IH. lia.
Qed.

Lemma str_app_cons c a b : String c a +:+ b = String c (a +:+ b).
Proof. reflexivity. Qed.

Lemma str_take_drop n s : JS.str_take n s +:+ JS.str_drop n s = s.
Proof.
  revert s; induction n as [|n IH]; intros [|c s]; simpl; auto.
  rewrite ?str_app_cons. f_equal. apply IH.
Qed.

Lemma str_take_app pre rest :
  JS.str_take (String.length pre) (pre +:+ rest) = pre.
Proof.
  induction pre as [|c pre IH]; simpl.
  - now destruct rest.
  - rewrite ?str_app_cons. simpl. now rewrite IH.
Qed.

Lemma str_drop_app pre rest :
  JS.str_drop (String.length pre) (pre +:+ rest) = rest.
Proof.
  induction pre as [|c pre IH]; simpl; auto.
Qed.

Lemma str_length_app a b :
  String.length (a +:+ b) = (String.length a + String.length b)%nat.
Proof.
  induction a as [|c a IH]; simpl; auto.
Qed.

Lemma str_app_assoc a b c : (a +:+ b) +:+ c = a +:+ (b +:+ c).
Proof.
  induction a as [|x a IH]; simpl; auto.
  rewrite ?str_app_cons. now rewrite IH.
Qed.

Lemma str_take_min n s :
  JS.str_take (Nat.min n (String.length s)) s = JS.str_take n s.
Proof.
  destruct (Nat.le_gt_cases n (String.length s)) as [H|H].
  - now rewrite Nat.min_l.
  - rewrite Nat.min_r by lia. rewrite !str_take_all; auto; lia.
Qed.

(** [s.substring(0, n)] keeps the first [n] code units. *)
Lemma substring_prefix s n :
  JS.substring s 0 (Some n) = JS.str_take (Z.to_nat n) s.
Proof.
  unfold JS.substring, JS.clamp.
  replace (Z.to_nat (Z.min (Z.max 0 0) (Z.of_nat (String.length s)))) with 0%nat by lia.
  rewrite Nat.min_0_l, Nat.max_0_l, Nat.sub_0_r. simpl JS.str_drop.
  replace (Z.to_nat (Z.min (Z.max n 0) (Z.of_nat (String.length s))))
    with (Nat.min (Z.to_nat n) (String.length s)) by lia.
  apply str_take_min.
Qed.

(** [s.substring(n)] drops the first [n] code units. *)
Lemma substring_suffix s n :
  JS.substring s n None = JS.str_drop (Z.to_nat n) s.
Proof.
  unfold JS.substring, JS.clamp.
  set (len := String.length s).
  set (a := Z.to_nat (Z.min (Z.max n 0) (Z.of_nat len))).
  assert (Ha : a = Nat.min (Z.to_nat n) len) by (unfold a; lia).
  rewrite Nat.min_l, Nat.max_r by lia.
  rewrite str_take_all by (rewrite str_drop_length; fold len; lia).
  rewrite Ha.
  destruct (Nat.le_gt_cases (Z.to_nat n) len) as [H|H].
  - now rewrite Nat.min_l.
  - rewrite Nat.min_r by lia. rewrite !str_drop_all; auto; fold len; lia.
Qed.

End StringFacts.

(** ** The stable sort *)

Section SortFacts.

Context {A : Type} (key : A -> Z).

(** Both comparators of the program have this shape. *)
Let descending (a b : A) : Z := key b - key a.

Lemma insert_sorted_Permutation x l :
  Permutation (JS.insert_sorted descending x l) (x :: l).
Proof.
  induction l as [|y l IH]; simpl; [reflexivity|].
  destruct (descending x y <=? 0); [reflexivity|].
  rewrite IH. apply perm_swap.
Qed.

Lemma sort_Permutation l : Permutation (JS.sort descending l) l.
Proof.
  induction l as [|x l IH]; simpl; [reflexivity|].
  rewrite insert_sorted_Permutation. now constructor.
Qed.

Lemma insert_sorted_sorted x l :
  StronglySorted (fun a b => key b <= key a) l ->
  StronglySorted (fun a b => key b <= key a) (JS.insert_sorted descending x l).
Proof.
  induction 1 as [|y l Hs IH Hy]; simpl.
  - repeat constructor.
  - destruct (Z.leb_spec (descending x y) 0) as [Hle|Hgt]; unfold descending in *.
    + constructor; [now constructor|].
      constructor; [lia|].
      eapply Forall_impl; [exact Hy|]. simpl. intros; lia.
    + constructor; [exact IH|].
      eapply Permutation_Forall.
      * symmetry. apply insert_sorted_Permutation.
      * constructor; [lia | exact Hy].
Qed.

Lemma sort_sorted l :
  StronglySorted (fun a b => key b <= key a) (JS.sort descending l).
Proof.
  induction l as [|x l IH]; simpl; [constructor|].
  now apply insert_sorted_sorted.
Qed.

(** Insertion never moves an element past another of the same key. *)
Lemma insert_sorted_stable k x l :
  List.filter (fun a => key a =? k) (JS.insert_sorted descending x l)
  = List.filter (fun a => key a =? k) (x :: l).
Proof.
  induction l as [|y l IH]; simpl; [reflexivity|].
  destruct (Z.leb_spec (descending x y) 0) as [Hle|Hgt]; [reflexivity|].
  unfold descending in Hgt. simpl in *. rewrite IH.
  destruct (Z.eqb_spec (key x) k), (Z.eqb_spec (key y) k); auto; lia.
Qed.

Lemma sort_stable k l :
  List.filter (fun a => key a =? k) (JS.sort descending l)
  = List.filter (fun a => key a =? k) l.
Proof.
  induction l as [|x l IH]; simpl; [reflexivity|].
  rewrite insert_sorted_stable. simpl. now rewrite IH.
Qed.

End SortFacts.

Lemma StronglySorted_suffix {A} (R : A -> A -> Prop) l1 l2 :
  StronglySorted R (l1 ++ l2) -> StronglySorted R l2.
Proof.
  induction l1 as [|x l1 IH]; simpl; auto.
  intros H. apply StronglySorted_inv in H as [H _]. auto.
Qed.

Lemma sortedIssues_Permutation issues : Permutation (sortedIssues issues) issues.
Proof. apply (sort_Permutation issueLine). Qed.

Lemma hasQuickFixes_spec issue :
  hasQuickFixes issue = true <-> exists fix1 more, quickFixes issue = Some (fix1 :: more).
Proof.
  unfold hasQuickFixes. destruct (quickFixes issue) as [[|f fs]|]; split;
    try discriminate; eauto; intros (f' & fs' & H); discriminate.
Qed.

Lemma plan_elem_of rawIssues issue :
  issue ∈ plan rawIssues <-> issue ∈ rawIssues /\ hasQuickFixes issue = true.
Proof.
  unfold plan. rewrite (sortedIssues_Permutation (issuesWithQuickFixes rawIssues)).
  unfold issuesWithQuickFixes. rewrite list_elem_of_filter. tauto.
Qed.

(** ** Edit Planner *)

(** The unit test on missing line information: a line given only as
    [issue.startLine] counts, an issue without any counts as line 0. *)
Example sort_missing_textRange :
  map issueLine
      (sortedIssues
         [ {| textRange := None; startLine := Some 5; ruleKey := "javascript:S1481";
              quickFixes := Some [Sample.bareFix ""] |};
           Sample.issueAt 15 "javascript:S3626" (Some [Sample.bareFix ""]);
           Sample.issueNowhere "javascript:S1854" (Some [Sample.bareFix ""]) ])
  = [15; 5; 0].
Proof. reflexivity. Qed.

(** C1, as stated, fails: the issue of the unit test whose only quick fix is
    [{ message: 'Remove unused variable' }] carries no text edit at all, yet
    the filter keeps it and it appears in the planned order. *)
Lemma C1_counterexample :
  Sample.unusedVariable ∈ plan [Sample.unusedVariable]
  /\ exists fix1, quickFixes Sample.unusedVariable = Some [fix1]
               /\ fixFileEdits fix1 = [] /\ fixTextEdits fix1 = [].
Proof.
  split.
  - apply plan_elem_of. split; [apply list_elem_of_here | reflexivity].
  - eexists. repeat split.
Qed.

(** C1 (amended): an issue appears in the planned application order exactly
    when it is among the analysed issues and its quick-fix list is present
    and nonempty; the edits of the fix play no part in the selection. *)
Theorem C1_plan_selects_issues_with_quick_fix (rawIssues : list Issue) (issue : Issue) :
  issue ∈ plan rawIssues
  <-> issue ∈ rawIssues /\ exists fix1 more, quickFixes issue = Some (fix1 :: more).
Proof.
  rewrite plan_elem_of, hasQuickFixes_spec. reflexivity.
Qed.

(** C2: the planned order is a stable descending sort by start line: it is
    a rearrangement of the input, start lines never increase along it,
    issues of equal start line keep their input order, an issue without a
    resolvable position counts as line 0 and, start lines being
    non-negative, is followed only by issues of line 0; start lines
    5, 15, 10, 3 are planned as 15, 10, 5, 3. *)
Theorem C2_sort_stable_descending (issues : list Issue) :
  Permutation (sortedIssues issues) issues
  /\ StronglySorted (fun a b => issueLine b <= issueLine a) (sortedIssues issues)
  /\ (forall k, List.filter (fun i => issueLine i =? k) (sortedIssues issues)
                = List.filter (fun i => issueLine i =? k) issues)
  /\ (forall issue, textRange issue ≫= r_startLine = None -> startLine issue = None ->
        issueLine issue = 0
        /\ forall before after,
             Forall (fun i => 0 <= issueLine i) issues ->
             sortedIssues issues = before ++ issue :: after ->
             Forall (fun i => issueLine i = 0) after)
  /\ map issueLine (sortedIssues Sample.fourIssues) = [15; 10; 5; 3].
Proof.
  split; [apply sortedIssues_Permutation|].
  split; [apply (sort_sorted issueLine)|].
  split; [intros k; apply (sort_stable issueLine)|].
  split; [|reflexivity].
  intros issue Hrange Hline.
  assert (H0 : issueLine issue = 0) by (unfold issueLine; now rewrite Hrange, Hline).
  split; [exact H0|].
  intros before after Hnonneg Heq.
  pose proof (sort_sorted issueLine issues) as Hsorted.
  fold compareIssues in Hsorted. fold (sortedIssues issues) in Hsorted.
  assert (Hall : Forall (fun i => 0 <= issueLine i) (sortedIssues issues)).
  { eapply Permutation_Forall; [symmetry; apply sortedIssues_Permutation | exact Hnonneg]. }
  rewrite Heq in Hsorted, Hall.
  apply StronglySorted_suffix in Hsorted.
  apply StronglySorted_inv in Hsorted as [_ Hafter].
  apply Forall_app in Hall as [_ Hall]. apply Forall_cons in Hall as [_ Hall].
  rewrite Forall_forall in *. intros j Hj.
  specialize (Hafter j Hj). specialize (Hall j Hj). simpl in *. lia.
Qed.

Lemma C2_sort_stable_descending_witness :
  let nowhere := Sample.issueNowhere "javascript:S1854" (Some [Sample.bareFix "first"]) in
  let nowhere' := Sample.issueNowhere "javascript:S1481" (Some [Sample.bareFix "second"]) in
  let at15 := Sample.issueAt 15 "javascript:S3626" (Some [Sample.bareFix ""]) in
  let issues := [nowhere; at15; nowhere'] in
  Forall (fun i => 0 <= issueLine i) issues
  /\ sortedIssues issues = [at15] ++ nowhere :: [nowhere']
  /\ Forall (fun i => issueLine i = 0) [nowhere'].
Proof.
  intros nowhere nowhere' at15 issues.
  assert (Hnonneg : Forall (fun i => 0 <= issueLine i) issues)
    by (repeat constructor; vm_compute; discriminate).
  split; [exact Hnonneg|]. split; [reflexivity|].
  exact (proj2 (proj1 (proj2 (proj2 (proj2 (C2_sort_stable_descending issues)))) nowhere
                  eq_refl eq_refl) [at15] [nowhere'] Hnonneg eq_refl).
Defined.

(** ** Edit Applier: one text edit *)

Lemma index_Some {A} (l : list A) (i : Z) (x : A) :
  JS.index l i = Some x -> 0 <= i /\ l !! Z.to_nat i = Some x /\ (Z.to_nat i < length l)%nat.
Proof.
  unfold JS.index. destruct (Z.ltb_spec i 0); [discriminate|].
  intros H'. repeat split; auto. eapply lookup_lt_Some; eauto.
Qed.

Lemma lineAt_Some lines i l : JS.index lines i = Some l -> lineAt lines i = inr l.
Proof. unfold lineAt. now intros ->. Qed.

(** Inside the array, [splice(start, end - start + 1, item)] replaces the
    elements [start .. end] by [item]. *)
Lemma splice_range {A} (l : list A) (s e : Z) (item : A) :
  0 <= s -> s <= e -> e < Z.of_nat (length l) ->
  JS.splice l s (e - s + 1) item
  = take (Z.to_nat s) l ++ item :: drop (S (Z.to_nat e)) l.
Proof.
  intros Hs Hse He. unfold JS.splice.
  destruct (Z.ltb_spec s 0); [lia|].
  rewrite (Z.min_l s) by lia.
  rewrite (Z.max_l (e - s + 1)) by lia.
  rewrite (Z.min_l (e - s + 1)) by lia.
  do 3 f_equal. lia.
Qed.

(** The edit enters [applyTextEdit] only through these five values. *)
Lemma applyTextEdit_ext lines edit edit' :
  editStartLine edit = editStartLine edit' ->
  editStartCol edit = editStartCol edit' ->
  editEndLine edit = editEndLine edit' ->
  editEndCol lines edit = editEndCol lines edit' ->
  editNewText edit = editNewText edit' ->
  applyTextEdit lines edit = applyTextEdit lines edit'.
Proof.
  intros H1 H2 H3 H4 H5. unfold applyTextEdit. now rewrite H1, H2, H3, H4, H5.
Qed.

Lemma editEndCol_explicit lines edit ec :
  range edit ≫= r_endLineOffset = Some ec -> ec <> 0 -> editEndCol lines edit = ec.
Proof.
  unfold editEndCol, JS.num_or. intros -> H.
  destruct (Z.eqb_spec ec 0); congruence.
Qed.

Lemma editEndCol_fallback lines edit :
  (range edit ≫= r_endLineOffset = None \/ range edit ≫= r_endLineOffset = Some 0) ->
  editEndCol lines edit
  = match JS.index lines (editEndLine edit) with
    | Some l => Z.of_nat (String.length l)
    | None => 0
    end.
Proof.
  unfold editEndCol, lineLength.
  assert (Hlen : forall o : option string,
             JS.num_or ((fun l => Z.of_nat (String.length l)) <$> o) 0
             = match o with Some l => Z.of_nat (String.length l) | None => 0 end).
  { intros [l|]; simpl; auto. destruct (Z.eqb_spec (Z.of_nat (String.length l)) 0); lia. }
  intros [-> | ->]; simpl; apply Hlen.
Qed.

(** C3: a same-line edit whose end column is given and nonzero replaces the
    columns [startCol, endCol) of its line: when the line reads
    [pre ++ mid ++ post] with [mid] occupying that span, it becomes
    [pre ++ newText ++ post]; the buffer keeps its length and every other
    line.  Replacing columns [2,5) of "  var x = 1;" by "const" gives
    "  const x = 1;", and replacing [2,9) of "  return;" by "" gives "  "
    with both neighbours intact. *)
Theorem C3_same_line_edit_replaces_span :
  (forall (lines : list string) (edit : TextEdit) (n : Z) (pre mid post : string),
      editStartLine edit = n ->
      editEndLine edit = n ->
      JS.index lines n = Some (pre +:+ mid +:+ post) ->
      editStartCol edit = Z.of_nat (String.length pre) ->
      range edit ≫= r_endLineOffset = Some (Z.of_nat (String.length (pre +:+ mid))) ->
      pre +:+ mid <> "" ->
      exists lines',
        applyTextEdit lines edit = inr lines'
        /\ lines' !! Z.to_nat n = Some (pre +:+ editNewText edit +:+ post)
        /\ length lines' = length lines
        /\ forall j, j <> Z.to_nat n -> lines' !! j = lines !! j)
  /\ applyTextEdit ["  var x = 1;"] (Sample.replace 1 2 1 5 "const")
     = inr ["  const x = 1;"]
  /\ applyTextEdit ["function test() {"; "  return;"; "}"] (Sample.replace 2 2 2 9 "")
     = inr ["function test() {"; "  "; "}"].
Proof.
  split; [|split; reflexivity].
  intros lines edit n pre mid post Hs He Hline Hsc Hec Hne.
  destruct (index_Some _ _ _ Hline) as (Hn & Hlook & Hlt).
  assert (Hnz : Z.of_nat (String.length (pre +:+ mid)) <> 0).
  { destruct (pre +:+ mid); [congruence | simpl; lia]. }
  eexists. split; [|split; [|split]].
  - unfold applyTextEdit. rewrite Hs, He, Z.eqb_refl, (lineAt_Some _ _ _ Hline).
    rewrite (editEndCol_explicit _ _ _ Hec Hnz), Hsc.
    rewrite substring_prefix, substring_suffix, !Nat2Z.id.
    rewrite str_take_app.
    rewrite <- (str_app_assoc pre mid post), str_drop_app. reflexivity.
  - now apply list_lookup_insert_eq.
  - apply length_insert.
  - intros j Hj. now apply list_lookup_insert_ne.
Qed.

Lemma C3_same_line_edit_replaces_span_witness :
  exists lines',
    applyTextEdit ["function test() {"; "  var unused = 42;"; "}"]
                  (Sample.replace 2 2 2 5 "const") = inr lines'
    /\ lines' !! 1%nat = Some "  const unused = 42;"
    /\ length lines' = 3%nat
    /\ forall j, j <> 1%nat -> lines' !! j = ["function test() {"; "  var unused = 42;"; "}"] !! j.
Proof.
  exact (proj1 C3_same_line_edit_replaces_span
           ["function test() {"; "  var unused = 42;"; "}"]
           (Sample.replace 2 2 2 5 "const") 1 "  " "var" " unused = 42;"
           eq_refl eq_refl eq_refl eq_refl eq_refl ltac:(discriminate)).
Defined.

(** C4: the applier breaks the multi-line rule at an end column of 0.
    Deleting line 11 of the sample file by the range (11,0)-(12,0) should
    keep the suffix of line 12 from column 0 onward, the whole closing
    brace; the end column being read as
    [endLineOffset || lines[endLine]?.length || 0], the 0 is taken for a
    missing offset and the brace is dropped with the line. *)
Lemma C4_end_column_zero_drops_end_line :
  let edit := Sample.replace 11 0 12 0 "" in
  editStartLine edit = 10 /\ editEndLine edit = 11
  /\ spec_multiLineEdit Sample.sourceLines 10 0 11 0 ""
     = take 10 Sample.sourceLines ++ ["}"; ""]
  /\ applyTextEdit Sample.sourceLines edit
     = inr (take 10 Sample.sourceLines ++ [""; ""])
  /\ applyTextEdit Sample.sourceLines edit
     <> inr (spec_multiLineEdit Sample.sourceLines 10 0 11 0 "").
Proof.
  repeat split; try reflexivity. vm_compute. discriminate.
Qed.

(** Wherever the end column is given and nonzero the applier follows the
    multi-line rule of C4: the edit, with both its lines in the buffer,
    replaces the lines
    [startLine .. endLine] by the single line made of the prefix of the
    start line before [startCol], the replacement text and the suffix of
    the end line from [endCol] onward - the line the specification
    describes; the lines before and after keep their content and the
    buffer shrinks by [endLine - startLine] lines. *)
Theorem C4_multi_line_edit_splices_range
        (lines : list string) (edit : TextEdit) (sl el : nat) (first last : string) (ec : Z) :
  editStartLine edit = Z.of_nat sl ->
  editEndLine edit = Z.of_nat el ->
  (sl < el)%nat ->
  lines !! sl = Some first ->
  lines !! el = Some last ->
  range edit ≫= r_endLineOffset = Some ec ->
  ec <> 0 ->
  exists lines',
    applyTextEdit lines edit = inr lines'
    /\ lines' = take sl lines
                ++ (JS.str_take (Z.to_nat (editStartCol edit)) first +:+ editNewText edit
                    +:+ JS.str_drop (Z.to_nat ec) last)
                :: drop (S el) lines
    /\ lines' = spec_multiLineEdit lines sl (Z.to_nat (editStartCol edit)) el (Z.to_nat ec)
                                   (editNewText edit)
    /\ (length lines' + (el - sl) = length lines)%nat
    /\ (forall j, (j < sl)%nat -> lines' !! j = lines !! j)
    /\ (forall j, (el < j)%nat -> lines' !! (j - (el - sl))%nat = lines !! j).
Proof.
  intros Hs He Hlt Hfirst Hlast Hec Hnz.
  pose proof (lookup_lt_Some _ _ _ Hfirst) as Hsl.
  pose proof (lookup_lt_Some _ _ _ Hlast) as Hel.
  assert (Hi1 : JS.index lines (Z.of_nat sl) = Some first).
  { unfold JS.index. destruct (Z.ltb_spec (Z.of_nat sl) 0); [lia|]. now rewrite Nat2Z.id. }
  assert (Hi2 : JS.index lines (Z.of_nat el) = Some last).
  { unfold JS.index. destruct (Z.ltb_spec (Z.of_nat el) 0); [lia|]. now rewrite Nat2Z.id. }
  eexists. split; [|split; [reflexivity|split; [|split; [|split]]]].
  - unfold applyTextEdit. rewrite Hs, He.
    destruct (Z.eqb_spec (Z.of_nat sl) (Z.of_nat el)); [lia|].
    rewrite (lineAt_Some _ _ _ Hi1), (lineAt_Some _ _ _ Hi2).
    rewrite (editEndCol_explicit _ _ _ Hec Hnz).
    rewrite splice_range by lia.
    rewrite substring_prefix, substring_suffix, !Nat2Z.id, str_app_assoc. reflexivity.
  - unfold spec_multiLineEdit.
    rewrite (nth_lookup_Some _ _ _ _ Hfirst), (nth_lookup_Some _ _ _ _ Hlast). reflexivity.
  - rewrite length_app, length_take. simpl. rewrite length_drop. lia.
  - intros j Hj. rewrite lookup_app_l by (rewrite length_take; lia).
    apply lookup_take_lt. lia.
  - intros j Hj. rewrite lookup_app_r by (rewrite length_take; lia).
    rewrite length_take, Nat.min_l by lia.
    replace (j - (el - sl) - sl)%nat with (S (j - S el)) by lia. simpl.
    rewrite lookup_drop. f_equal. lia.
Qed.

Lemma C4_multi_line_edit_splices_range_witness :
  exists lines',
    applyTextEdit ["function test() {"; "  if (true)"; "    console.log(1);"; "}"]
                  (Sample.replace 2 2 3 19 "if (true) { console.log(1); }") = inr lines'
    /\ lines' = ["function test() {"; "  if (true) { console.log(1); }"; "}"].
Proof.
  destruct (C4_multi_line_edit_splices_range
              ["function test() {"; "  if (true)"; "    console.log(1);"; "}"]
              (Sample.replace 2 2 3 19 "if (true) { console.log(1); }")
              1 2 "  if (true)" "    console.log(1);" 19
              eq_refl eq_refl ltac:(lia) eq_refl eq_refl eq_refl ltac:(discriminate))
    as (lines' & Happly & Hlines & _).
  exists lines'. split; [exact Happly | exact Hlines].
Defined.

Lemma str_app_empty s : s +:+ "" = s.
Proof. induction s as [|c s IH]; [reflexivity|]. now rewrite str_app_cons, IH. Qed.

(** C10: when [range.endLineOffset] is 0 or absent the end column becomes
    the current length of the end line (0 if there is no such line), so
    the edit is applied as ending at the end of that line: with its lines
    in the buffer, the lines [startLine .. endLine] are replaced by the
    prefix of the start line before [startCol] followed by the new text,
    nothing of the end line being kept - the edit in the words of the
    specification with the length of the end line for its end column.  An
    explicit 0 and a missing offset are applied alike, and both exactly as
    an edit whose end column is the length of the end line. *)
Theorem C10_zero_end_offset_is_end_of_line (lines : list string) (edit : TextEdit) :
  let endOfLine := match JS.index lines (editEndLine edit) with
                   | Some l => Z.of_nat (String.length l)
                   | None => 0
                   end in
  ((range edit ≫= r_endLineOffset = None \/ range edit ≫= r_endLineOffset = Some 0) ->
   editEndCol lines edit = endOfLine)
  /\ (forall (sl el : nat) (first last : string),
         range edit ≫= r_endLineOffset = None \/ range edit ≫= r_endLineOffset = Some 0 ->
         editStartLine edit = Z.of_nat sl ->
         editEndLine edit = Z.of_nat el ->
         (sl <= el)%nat ->
         lines !! sl = Some first ->
         lines !! el = Some last ->
         applyTextEdit lines edit
         = inr (take sl lines
                ++ (JS.str_take (Z.to_nat (editStartCol edit)) first +:+ editNewText edit)
                :: drop (S el) lines)
         /\ applyTextEdit lines edit
            = inr (spec_multiLineEdit lines sl (Z.to_nat (editStartCol edit))
                                      el (String.length last) (editNewText edit)))
  /\ applyTextEdit lines (withEndOffset edit (Some 0))
     = applyTextEdit lines (withEndOffset edit None)
  /\ applyTextEdit lines (withEndOffset edit (Some 0))
     = applyTextEdit lines (withEndOffset edit (Some endOfLine)).
Proof.
  intros endOfLine.
  assert (Hline : forall o, editEndLine (withEndOffset edit o) = editEndLine edit)
    by reflexivity.
  assert (Hfall : forall o, o = None \/ o = Some 0 ->
                            editEndCol lines (withEndOffset edit o) = endOfLine).
  { intros o Ho. rewrite editEndCol_fallback by exact Ho. now rewrite Hline. }
  split; [apply editEndCol_fallback|]. split; [|split].
  - intros sl el first last Hoffset Hs He Hle Hfirst Hlast.
    pose proof (lookup_lt_Some _ _ _ Hfirst) as Hsl.
    pose proof (lookup_lt_Some _ _ _ Hlast) as Hel.
    assert (Hi1 : JS.index lines (Z.of_nat sl) = Some first).
    { unfold JS.index. destruct (Z.ltb_spec (Z.of_nat sl) 0); [lia|]. now rewrite Nat2Z.id. }
    assert (Hi2 : JS.index lines (Z.of_nat el) = Some last).
    { unfold JS.index. destruct (Z.ltb_spec (Z.of_nat el) 0); [lia|]. now rewrite Nat2Z.id. }
    assert (Hcol : editEndCol lines edit = Z.of_nat (String.length last)).
    { rewrite (editEndCol_fallback _ _ Hoffset), He, Hi2. reflexivity. }
    assert (Happly : applyTextEdit lines edit
                     = inr (take sl lines
                            ++ (JS.str_take (Z.to_nat (editStartCol edit)) first
                                +:+ editNewText edit)
                            :: drop (S el) lines)).
    { unfold applyTextEdit. rewrite Hs, He, Hcol.
      destruct (Z.eqb_spec (Z.of_nat sl) (Z.of_nat el)) as [Heq|Hne].
      - apply Nat2Z.inj in Heq. subst el.
        assert (last = first) by congruence. subst last.
        rewrite (lineAt_Some _ _ _ Hi1), Nat2Z.id.
        rewrite substring_prefix, substring_suffix, Nat2Z.id.
        rewrite str_drop_all, str_app_empty by lia.
        now rewrite insert_take_drop by exact Hsl.
      - rewrite (lineAt_Some _ _ _ Hi1), (lineAt_Some _ _ _ Hi2).
        rewrite splice_range by lia.
        rewrite substring_prefix, substring_suffix, !Nat2Z.id.
        now rewrite str_drop_all, str_app_empty by lia. }
    split; [exact Happly|]. rewrite Happly. unfold spec_multiLineEdit.
    rewrite (nth_lookup_Some _ _ _ _ Hfirst), (nth_lookup_Some _ _ _ _ Hlast).
    now rewrite str_drop_all, str_app_empty by lia.
  - apply applyTextEdit_ext; reflexivity.
  - apply applyTextEdit_ext; try reflexivity.
    rewrite Hfall by auto.
    destruct (Z.eq_dec endOfLine 0) as [H0|H0].
    + rewrite H0. symmetry. rewrite Hfall; auto.
    + symmetry. now apply editEndCol_explicit.
Qed.

Lemma C10_zero_end_offset_is_end_of_line_witness :
  editEndCol Sample.sourceLines (Sample.replace 11 0 12 0 "") = 1
  /\ applyTextEdit Sample.sourceLines (Sample.replace 11 0 12 0 "")
     = inr (take 10 Sample.sourceLines ++ ("" +:+ "") :: drop 12 Sample.sourceLines).
Proof.
  pose proof (C10_zero_end_offset_is_end_of_line Sample.sourceLines
                (Sample.replace 11 0 12 0 "")) as (Hcol & Happly & _).
  split; [exact (Hcol (or_intror eq_refl))|].
  exact (proj1 (Happly 10%nat 11%nat "  return;" "}" (or_intror eq_refl)
                  eq_refl eq_refl ltac:(lia) eq_refl eq_refl)).
Defined.

(** ** Scope Resolver *)

Lemma mapGet_mapSet_eq m k v : mapGet (mapSet m k v) k = Some v.
Proof.
  induction m as [|[k' v'] m IH]; simpl.
  - now rewrite String.eqb_refl.
  - destruct (String.eqb_spec k' k) as [->|Hne]; simpl.
    + now rewrite String.eqb_refl.
    + destruct (String.eqb_spec k' k); [congruence | exact IH].
Qed.

Lemma mapGet_mapSet_ne m k v k' : k <> k' -> mapGet (mapSet m k v) k' = mapGet m k'.
Proof.
  intros Hne. induction m as [|[k0 v0] m IH]; simpl.
  - destruct (String.eqb_spec k k'); congruence.
  - destruct (String.eqb_spec k0 k) as [->|H0]; simpl.
    + destruct (String.eqb_spec k k'); congruence.
    + destruct (String.eqb_spec k0 k'); [reflexivity | exact IH].
Qed.

Lemma le_bytes_length n x : length (Crypto.le_bytes n x) = n.
Proof. revert x; induction n as [|n IH]; intros x; simpl; auto. Qed.

Lemma digest_length msg : length (Crypto.digest msg) = 16%nat.
Proof. unfold Crypto.digest. now rewrite !length_app, !le_bytes_length. Qed.

Lemma hex_digit_is_hex n : Crypto.is_hex_digit (Crypto.hex_digit n) = true.
Proof.
  unfold Crypto.hex_digit. generalize (Z.to_nat n) as k. intros k.
  do 16 (destruct k as [|k]; [reflexivity|]). destruct k; reflexivity.
Qed.

Lemma hex_of_bytes_length bs :
  String.length (Crypto.hex_of_bytes bs) = (2 * length bs)%nat.
Proof. induction bs as [|b bs IH]; simpl; auto. rewrite IH. lia. Qed.

Lemma hex_of_bytes_all_hex bs : Crypto.all_hex (Crypto.hex_of_bytes bs) = true.
Proof.
  induction bs as [|b bs IH]; simpl; auto.
  now rewrite !hex_digit_is_hex, IH.
Qed.

Lemma all_hex_take n s : Crypto.all_hex s = true -> Crypto.all_hex (JS.str_take n s) = true.
Proof.
  revert s; induction n as [|n IH]; intros [|c s]; simpl; auto.
  rewrite !andb_true_iff. intros [Hc Hs]. auto.
Qed.

(** A fresh scope id is ["scope-"] followed by 8 hexadecimal digits. *)
Lemma scopeIdFor_shape projectRoot :
  exists h, scopeIdFor projectRoot = "scope-" +:+ h
            /\ String.length h = 8%nat /\ Crypto.all_hex h = true.
Proof.
  unfold scopeIdFor. eexists. split; [reflexivity|].
  rewrite substring_prefix. split.
  - rewrite str_take_length. unfold Crypto.md5_hex.
    rewrite hex_of_bytes_length, digest_length. reflexivity.
  - apply all_hex_take, hex_of_bytes_all_hex.
Qed.

Lemma str_truthy_Some o : JS.str_truthy o = true -> exists id, o = Some id.
Proof. destruct o as [[|c s]|]; simpl; try discriminate; eauto. Qed.

(** After a resolution the root is mapped to the returned, non-empty id. *)
Lemma getOrCreateScope_stored filePath w :
  exists scopeId,
    fst (getOrCreateScope filePath w) = inr scopeId
    /\ mapGet (scopeMap (snd (getOrCreateScope filePath w))) (NodePath.dirname filePath)
       = Some scopeId
    /\ JS.str_truthy (Some scopeId) = true.
Proof.
  unfold getOrCreateScope.
  destruct (JS.str_truthy (mapGet (scopeMap w) (NodePath.dirname filePath))) eqn:Hhit.
  - destruct (str_truthy_Some _ Hhit) as [scopeId Hget]. exists scopeId. simpl.
    rewrite Hget in *. auto.
  - eexists. simpl. split; [reflexivity|]. split; [apply mapGet_mapSet_eq | reflexivity].
Qed.

(** A resolution never removes or changes an established mapping. *)
Lemma getOrCreateScope_keeps filePath w projectRoot scopeId :
  mapGet (scopeMap w) projectRoot = Some scopeId ->
  JS.str_truthy (Some scopeId) = true ->
  mapGet (scopeMap (snd (getOrCreateScope filePath w))) projectRoot = Some scopeId.
Proof.
  intros Hget Htruthy. unfold getOrCreateScope.
  destruct (JS.str_truthy (mapGet (scopeMap w) (NodePath.dirname filePath))) eqn:Hhit;
    simpl; [exact Hget|].
  rewrite mapGet_mapSet_ne; [exact Hget|].
  intros Heq. rewrite Heq, Hget, Htruthy in Hhit. discriminate.
Qed.

Lemma resolveAll_keeps filePaths w projectRoot scopeId :
  mapGet (scopeMap w) projectRoot = Some scopeId ->
  JS.str_truthy (Some scopeId) = true ->
  mapGet (scopeMap (resolveAll filePaths w)) projectRoot = Some scopeId.
Proof.
  revert w; induction filePaths as [|p ps IH]; intros w Hget Htruthy; simpl; auto.
  apply IH; auto. now apply getOrCreateScope_keeps.
Qed.

(** C9, as stated, fails: without a bridge ([getSloopBridge()] is [null],
    as when a batch analysis resolves its scopes before the bridge is
    ensured) the fresh scope is stored but not registered with the backend. *)
Lemma C9_counterexample :
  let w := Sample.disk "" in
  sloopBridge w = false
  /\ fst (getOrCreateScope Sample.path w) = inr "scope-1e0bb3be"
  /\ scopeMap (snd (getOrCreateScope Sample.path w)) = [("/work", "scope-1e0bb3be")]
  /\ trace (snd (getOrCreateScope Sample.path w)) = [].
Proof. vm_compute. repeat split. Qed.

Lemma getOrCreateScope_hit filePath w scopeId :
  mapGet (scopeMap w) (NodePath.dirname filePath) = Some scopeId ->
  JS.str_truthy (Some scopeId) = true ->
  getOrCreateScope filePath w = (inr scopeId, w).
Proof. intros Hget Htruthy. unfold getOrCreateScope. now rewrite Hget, Htruthy. Qed.

(** C9 (amended): resolution is memoized per project root: two calls whose
    paths share their parent directory return the same scope id, whatever
    resolutions happen in between, and the mapping is still in place
    afterwards.  On a miss the id is ["scope-"] followed by the first 8
    hexadecimal digits of the MD5 of the root, the mapping is stored, and
    the scope is registered with the backend exactly when a bridge is set. *)
Theorem C9_scope_memoized_per_root (w : World) (first later : string) (between : list string) :
  NodePath.dirname first = NodePath.dirname later ->
  let projectRoot := NodePath.dirname first in
  let w1 := snd (getOrCreateScope first w) in
  let w2 := resolveAll between w1 in
  (exists scopeId,
      fst (getOrCreateScope first w) = inr scopeId
      /\ getOrCreateScope later w2 = (inr scopeId, w2)
      /\ mapGet (scopeMap w2) projectRoot = Some scopeId)
  /\ (JS.str_truthy (mapGet (scopeMap w) projectRoot) = false ->
      fst (getOrCreateScope first w) = inr (scopeIdFor projectRoot)
      /\ (exists h, scopeIdFor projectRoot = "scope-" +:+ h
                    /\ String.length h = 8%nat /\ Crypto.all_hex h = true)
      /\ scopeMap w1 = mapSet (scopeMap w) projectRoot (scopeIdFor projectRoot)
      /\ trace w1
         = trace w ++ (if sloopBridge w
                       then [AddConfigurationScope (scopeIdFor projectRoot)
                                                   ("Project: " +:+ projectRoot)]
                       else [])).
Proof.
  intros Hsame projectRoot w1 w2. split.
  - destruct (getOrCreateScope_stored first w) as (scopeId & Hret & Hget & Htruthy).
    exists scopeId. split; [exact Hret|].
    assert (Hkept : mapGet (scopeMap w2) projectRoot = Some scopeId)
      by (apply resolveAll_keeps; assumption).
    split; [|exact Hkept].
    apply getOrCreateScope_hit; [|exact Htruthy].
    now rewrite <- Hsame.
  - intros Hmiss. unfold w1, getOrCreateScope. fold projectRoot. rewrite Hmiss. simpl.
    split; [reflexivity|]. split; [apply scopeIdFor_shape|]. split; [reflexivity|].
    destruct (sloopBridge w); [reflexivity | now rewrite app_nil_r].
Qed.

Lemma C9_scope_memoized_per_root_witness :
  let w := Sample.disk "" in
  NodePath.dirname "/work/a.js" = NodePath.dirname "/work/lib.ts"
  /\ exists scopeId,
      fst (getOrCreateScope "/work/a.js" w) = inr scopeId
      /\ fst (getOrCreateScope "/work/lib.ts"
                (resolveAll ["/other/b.js"; "/work/c.js"]
                            (snd (getOrCreateScope "/work/a.js" w))))
         = inr scopeId.
Proof.
  intros w. split; [reflexivity|].
  destruct (proj1 (C9_scope_memoized_per_root w "/work/a.js" "/work/lib.ts"
                     ["/other/b.js"; "/work/c.js"] eq_refl))
    as (scopeId & Hfirst & Hlater & _).
  exists scopeId. split; [exact Hfirst|]. now rewrite Hlater.
Defined.

(** ** Edit Applier: the batch loop *)

Lemma applyTextEdit_error lines edit e :
  applyTextEdit lines edit = inl e -> e = JS.undefined_property "substring".
Proof.
  unfold applyTextEdit, lineAt.
  destruct (_ =? _); repeat (destruct (JS.index _ _)); congruence.
Qed.

Lemma applyTextEdits_error edits lines e :
  applyTextEdits lines edits = inl e -> e = JS.undefined_property "substring".
Proof.
  revert lines; induction edits as [|edit rest IH]; intros lines; simpl; [discriminate|].
  destruct (applyTextEdit lines edit) eqn:Hedit; eauto.
  intros [= <-]. eapply applyTextEdit_error; eauto.
Qed.

Lemma applyFileEdits_error edits lines e :
  applyFileEdits lines edits = inl e -> e = JS.undefined_property "substring".
Proof.
  revert lines; induction edits as [|fileEdit rest IH]; intros lines; simpl; [discriminate|].
  destruct (applyFileEdit lines fileEdit) eqn:Hedit; eauto.
  intros [= <-]. unfold applyFileEdit in Hedit.
  destruct (textEdits fileEdit); [|discriminate].
  eapply applyTextEdits_error; eauto.
Qed.

(** Applying a quick fix to the buffer fails only on a missing line. *)
Lemma applyQuickFix_error lines quickFix e :
  applyQuickFix lines quickFix = inl e -> e = JS.undefined_property "substring".
Proof.
  unfold applyQuickFix. destruct (_ <? _); [apply applyFileEdits_error | discriminate].
Qed.

(** What one attempt does, case by case. *)
Lemma applyFixToFile_cases filePath quickFix w :
  applyFixToFile filePath quickFix w
  = match files w !! filePath with
    | None => (inl (JS.ENOENT filePath), w)
    | Some content =>
        match quickFix with
        | None => (inl (JS.undefined_property "inputFileEdits"), w)
        | Some fix1 =>
            match applyQuickFix (JS.split_lines content) fix1 with
            | inl e => (inl e, w)
            | inr lines' =>
                if bool_decide (filePath ∈ unwritable w)
                then (inl (JS.EACCES filePath), w)
                else (inr (JS.str_or (message fix1) "Applied automated fix"),
                      {| files := <[filePath := JS.join_lines lines']> (files w);
                         unwritable := unwritable w; scopeMap := scopeMap w;
                         sloopBridge := sloopBridge w;
                         trace := trace w ++ [WriteFile filePath (JS.join_lines lines')];
                         stderr := stderr w |})
            end
        end
    end.
Proof.
  unfold applyFixToFile, bind, readFileSync, lift, writeFileSync, throw, ret.
  destruct (files w !! filePath); [|reflexivity].
  destruct quickFix as [fix1|]; [|reflexivity].
  destruct (applyQuickFix _ fix1); [reflexivity|].
  destruct (bool_decide _); reflexivity.
Qed.

(** A failed attempt leaves the world, and so the file, as it was. *)
Lemma applyFixToFile_failure filePath quickFix w e w' :
  applyFixToFile filePath quickFix w = (inl e, w') -> w' = w.
Proof.
  rewrite applyFixToFile_cases.
  destruct (files w !! filePath); [|congruence].
  destruct quickFix as [fix1|]; [|congruence].
  destruct (applyQuickFix _ fix1); [congruence|].
  destruct (bool_decide _); congruence.
Qed.

Lemma applyLoop_step filePath issue rest applied failed w fixes :
  quickFixes issue = Some fixes ->
  applyLoop filePath (issue :: rest) applied failed w
  = match applyFixToFile filePath (head fixes) w with
    | (inr msg, w1) =>
        applyLoop filePath rest
          (applied ++ [{| af_line := issueLine issue; af_rule := ruleKey issue;
                          af_message := msg |}])
          failed w1
    | (inl err, w1) =>
        applyLoop filePath rest applied
          (failed ++ [{| ff_line := issueLine issue; ff_rule := ruleKey issue;
                         ff_error := JS.error_message err |}])
          (snd (consoleError ("[MCP] Failed to apply fix for " +:+ ruleKey issue
                              +:+ " at line " +:+ pretty (issueLine issue) +:+ ": "
                              +:+ JS.error_message err) w1))
    end.
Proof.
  intros Hfixes. simpl. rewrite Hfixes. unfold bind at 1, attempt.
  destruct (applyFixToFile filePath (head fixes) w) as [[err|msg] w1]; reflexivity.
Qed.

(** The loop runs to its end over issues that carry quick fixes, accounting
    for each of them once. *)
Lemma applyLoop_total filePath issues :
  Forall (fun issue => hasQuickFixes issue = true) issues ->
  forall applied failed w,
  exists applied' failed' w',
    applyLoop filePath issues applied failed w = (inr (applied ++ applied', failed ++ failed'), w')
    /\ (length applied' + length failed' = length issues)%nat.
Proof.
  induction 1 as [|issue rest Hfix _ IH]; intros applied failed w.
  - exists [], [], w. simpl. now rewrite !app_nil_r.
  - apply hasQuickFixes_spec in Hfix as (fix1 & more & Hfixes).
    rewrite (applyLoop_step _ _ _ _ _ _ _ Hfixes).
    destruct (applyFixToFile filePath (head (fix1 :: more)) w) as [[err|msg] w1].
    + edestruct IH as (applied' & failed' & w' & Hrun & Hlen).
      rewrite Hrun. eexists applied', (_ :: failed'), w'.
      rewrite <- app_assoc. simpl. split; [reflexivity | lia].
    + edestruct IH as (applied' & failed' & w' & Hrun & Hlen).
      rewrite Hrun. eexists (_ :: applied'), failed', w'.
      rewrite <- app_assoc. simpl. split; [reflexivity | lia].
Qed.

Lemma plan_hasQuickFixes rawIssues :
  Forall (fun issue => hasQuickFixes issue = true) (plan rawIssues).
Proof.
  rewrite Forall_forall. intros issue Hin. now apply plan_elem_of in Hin as [_ ?].
Qed.

Lemma sameDisk_refl w : sameDisk w w.
Proof. split; reflexivity. Qed.

Lemma applyFixToFile_frame filePath quickFix w v :
  sameDisk w v ->
  fst (applyFixToFile filePath quickFix w) = fst (applyFixToFile filePath quickFix v)
  /\ sameDisk (snd (applyFixToFile filePath quickFix w))
              (snd (applyFixToFile filePath quickFix v)).
Proof.
  intros [Hfiles Hro]. rewrite !applyFixToFile_cases, <- Hfiles, <- Hro.
  destruct (files w !! filePath); [|now repeat split].
  destruct quickFix as [fix1|]; [|now repeat split].
  destruct (applyQuickFix _ fix1); [now repeat split|].
  destruct (bool_decide _); [now repeat split|].
  simpl. repeat split; simpl; congruence.
Qed.

(** The loop reads nothing but the disk: from two worlds with the same disk
    it applies and fails the same fixes and ends with the same disk. *)
Lemma applyLoop_frame filePath issues :
  forall applied failed failed' w v,
    sameDisk w v ->
    match applyLoop filePath issues applied failed w,
          applyLoop filePath issues applied failed' v with
    | (inr (a1, f1), w'), (inr (a2, f2), v') =>
        a1 = a2 /\ (exists more, f1 = failed ++ more /\ f2 = failed' ++ more) /\ sameDisk w' v'
    | (inl e1, w'), (inl e2, v') => e1 = e2 /\ sameDisk w' v'
    | _, _ => False
    end.
Proof.
  induction issues as [|issue rest IH]; intros applied failed failed' w v Hdisk.
  - simpl. unfold ret. split; [reflexivity|]. split; [|exact Hdisk].
    exists []. now rewrite !app_nil_r.
  - destruct (quickFixes issue) as [fixes|] eqn:Hfixes.
    + rewrite !(applyLoop_step _ _ _ _ _ _ _ Hfixes).
      destruct (applyFixToFile_frame filePath (head fixes) w v Hdisk) as [Hres Hdisk'].
      destruct (applyFixToFile filePath (head fixes) w) as [[err|msg] w1];
        destruct (applyFixToFile filePath (head fixes) v) as [[err'|msg'] v1];
        simpl in Hres, Hdisk'; try discriminate; injection Hres as <-.
      * match goal with
        | |- context [applyLoop _ _ _ (failed ++ [?r]) ?w2] =>
            specialize (IH applied (failed ++ [r]) (failed' ++ [r]) w2
                           (snd (consoleError ("[MCP] Failed to apply fix for "
                                  +:+ ruleKey issue +:+ " at line "
                                  +:+ pretty (issueLine issue) +:+ ": "
                                  +:+ JS.error_message err) v1)) Hdisk')
        end.
        destruct (applyLoop filePath rest applied (failed ++ _) _) as [[e1|[a1 f1]] w'];
          destruct (applyLoop filePath rest applied (failed' ++ _) _) as [[e2|[a2 f2]] v'];
          auto.
        destruct IH as (Ha & (more & Hf1 & Hf2) & Hd). split; [exact Ha|]. split; [|exact Hd].
        eexists (_ :: more). rewrite Hf1, Hf2, <- !app_assoc. split; reflexivity.
      * apply (IH _ failed failed' w1 v1 Hdisk').
    + simpl. rewrite Hfixes. unfold throw. split; [reflexivity | exact Hdisk].
Qed.

Lemma applyLoop_app filePath before after :
  forall applied failed w,
    applyLoop filePath (before ++ after) applied failed w
    = match applyLoop filePath before applied failed w with
      | (inr (applied1, failed1), w1) => applyLoop filePath after applied1 failed1 w1
      | (inl e, w1) => (inl e, w1)
      end.
Proof.
  induction before as [|issue rest IH]; intros applied failed w; [reflexivity|].
  destruct (quickFixes issue) as [fixes|] eqn:Hfixes.
  - rewrite <- app_comm_cons, !(applyLoop_step _ _ _ _ _ _ _ Hfixes).
    destruct (applyFixToFile filePath (head fixes) w) as [[err|msg] w1]; apply IH.
  - simpl. now rewrite Hfixes.
Qed.

(** Failure isolation: an issue whose fix fails can be struck from the
    batch without changing which fixes are applied or what the disk holds
    in the end. *)
Lemma applyLoop_failure_isolated filePath before issue after w fixes applied1 failed1 w1 err w1' :
  Forall (fun i => hasQuickFixes i = true) after ->
  quickFixes issue = Some fixes ->
  applyLoop filePath before [] [] w = (inr (applied1, failed1), w1) ->
  applyFixToFile filePath (head fixes) w1 = (inl err, w1') ->
  exists applied failed w2 failed' w2',
    applyLoop filePath (before ++ issue :: after) [] [] w = (inr (applied, failed), w2)
    /\ applyLoop filePath (before ++ after) [] [] w = (inr (applied, failed'), w2')
    /\ files w2 = files w2'
    /\ length failed = S (length failed').
Proof.
  intros Hafter Hfixes Hbefore Hfail.
  rewrite !applyLoop_app, Hbefore, (applyLoop_step _ _ _ _ _ _ _ Hfixes), Hfail.
  pose proof (applyFixToFile_failure _ _ _ _ _ Hfail) as ->.
  set (logged := snd (consoleError _ w1)).
  set (record := {| ff_line := issueLine issue; ff_rule := ruleKey issue;
                    ff_error := JS.error_message err |}).
  pose proof (applyLoop_frame filePath after applied1 (failed1 ++ [record]) failed1
                              logged w1 (sameDisk_refl w1)) as Hframe.
  destruct (applyLoop_total filePath after Hafter applied1 (failed1 ++ [record]) logged)
    as (a & f & w2 & Hrun & _).
  destruct (applyLoop_total filePath after Hafter applied1 failed1 w1)
    as (a' & f' & w2' & Hrun' & _).
  rewrite Hrun, Hrun' in Hframe. destruct Hframe as (Ha & (more & Hf & Hf') & Hd & _).
  rewrite Hrun, Hrun'. rewrite <- Ha.
  eexists _, _, w2, _, w2'. repeat split; [exact Hd|].
  rewrite Hf, Hf', !length_app. simpl. lia.
Qed.

(** C5: in the batch loop a failing fix changes nothing on disk, adds its
    {line, rule, error} record to the failed list, and the loop goes on
    with the next issue; over a planned sequence the loop always runs to
    its end, every issue ending up applied or failed; striking a failing
    issue from the batch changes neither the applied fixes nor the final
    file.  On the sample file, with the fix at line 7 failing among five,
    4 fixes are applied, 1 fails, and the file holds the four successful
    fixes at lines 11, 5, 4 and 3. *)
Theorem C5_failure_never_aborts_batch :
  (forall filePath issue rest applied failed w fixes err w1,
      quickFixes issue = Some fixes ->
      applyFixToFile filePath (head fixes) w = (inl err, w1) ->
      w1 = w
      /\ applyLoop filePath (issue :: rest) applied failed w
         = applyLoop filePath rest applied
             (failed ++ [{| ff_line := issueLine issue; ff_rule := ruleKey issue;
                            ff_error := JS.error_message err |}])
             (snd (consoleError ("[MCP] Failed to apply fix for " +:+ ruleKey issue
                                 +:+ " at line " +:+ pretty (issueLine issue) +:+ ": "
                                 +:+ JS.error_message err) w)))
  /\ (forall filePath rawIssues w,
         exists applied failed w',
           applyLoop filePath (plan rawIssues) [] [] w = (inr (applied, failed), w')
           /\ (length applied + length failed = length (plan rawIssues))%nat)
  /\ (forall filePath before issue after w fixes applied1 failed1 w1 err w1',
         Forall (fun i => hasQuickFixes i = true) after ->
         quickFixes issue = Some fixes ->
         applyLoop filePath before [] [] w = (inr (applied1, failed1), w1) ->
         applyFixToFile filePath (head fixes) w1 = (inl err, w1') ->
         exists applied failed w2 failed' w2',
           applyLoop filePath (before ++ issue :: after) [] [] w = (inr (applied, failed), w2)
           /\ applyLoop filePath (before ++ after) [] [] w = (inr (applied, failed'), w2')
           /\ files w2 = files w2'
           /\ length failed = S (length failed'))
  /\ match handleApplyAllQuickFixes (Sample.backend Sample.fiveIssues) Sample.path
             (Sample.disk (JS.join_lines Sample.sourceLines)) with
     | (inr (QuickFixesApplied _ applied failed _), w') =>
         length applied = 4%nat /\ length failed = 1%nat
         /\ map af_line applied = [11; 5; 4; 3]
         /\ map ff_line failed = [7]
         /\ files w' !! Sample.path = Some (JS.join_lines Sample.fixedLines)
     | _ => False
     end.
Proof.
  split; [|split; [|split]].
  - intros filePath issue rest applied failed w fixes err w1 Hfixes Hfail.
    pose proof (applyFixToFile_failure _ _ _ _ _ Hfail) as ->.
    split; [reflexivity|].
    now rewrite (applyLoop_step _ _ _ _ _ _ _ Hfixes), Hfail.
  - intros filePath rawIssues w.
    destruct (applyLoop_total filePath (plan rawIssues) (plan_hasQuickFixes rawIssues) [] [] w)
      as (applied & failed & w' & Hrun & Hlen).
    now exists applied, failed, w'.
  - intros. eapply applyLoop_failure_isolated; eauto.
  - vm_compute. repeat split.
Qed.

Lemma C5_failure_never_aborts_batch_witness :
  let w := Sample.disk (JS.join_lines Sample.sourceLines) in
  let record := {| ff_line := 7; ff_rule := "javascript:S1154";
                   ff_error := "Cannot read properties of undefined (reading 'substring')" |} in
  exists logged,
    applyLoop Sample.path [Sample.staleLoopFix; Sample.varToConst 3] [] [] w
    = applyLoop Sample.path [Sample.varToConst 3] [] [record] logged
    /\ files logged = files w.
Proof.
  intros w record.
  destruct (proj1 C5_failure_never_aborts_batch Sample.path Sample.staleLoopFix
                  [Sample.varToConst 3] [] [] w _ _ w eq_refl eq_refl) as [_ Hstep].
  eexists. split; [exact Hstep | reflexivity].
Defined.

(** ** The tools, step by step *)

Lemma writes_snoc tr ev : isWrite ev = false -> writes (tr ++ [ev]) = writes tr.
Proof. intros H. unfold writes. rewrite List.filter_app. simpl. rewrite H. apply app_nil_r. Qed.

Lemma quiet_refl w : quiet w w.
Proof. repeat split. Qed.

Lemma quiet_trans w1 w2 w3 : quiet w1 w2 -> quiet w2 w3 -> quiet w1 w3.
Proof. unfold quiet. intros (? & ? & ?) (? & ? & ?). repeat split; congruence. Qed.

Lemma ensureSloopBridge_quiet env w r w' :
  ensureSloopBridge env w = (r, w') -> quiet w w'.
Proof.
  unfold ensureSloopBridge.
  destruct (sloopBridge w); [intros [= <- <-]; apply quiet_refl|].
  destruct (pluginsInstalled env); simpl; [|intros [= <- <-]; apply quiet_refl].
  destruct (connectError env); intros [= <- <-]; [apply quiet_refl|].
  repeat split; simpl. now apply writes_snoc.
Qed.

Lemma getOrCreateScope_quiet filePath w r w' :
  getOrCreateScope filePath w = (r, w') -> quiet w w'.
Proof.
  unfold getOrCreateScope. destruct (JS.str_truthy _); intros [= <- <-]; [apply quiet_refl|].
  repeat split; simpl. destruct (sloopBridge w); [now apply writes_snoc | reflexivity].
Qed.

Lemma analyzeFilesAndTrack_quiet env scopeId filePaths w r w' :
  analyzeFilesAndTrack env scopeId filePaths w = (r, w') -> quiet w w'.
Proof.
  unfold analyzeFilesAndTrack, bind, emit. simpl.
  destruct (analysisReply env _ _); intros [= <- <-]; repeat split; simpl;
    now apply writes_snoc.
Qed.

Lemma analyzeFilesAndTrack_trace env scopeId filePaths w r w' :
  analyzeFilesAndTrack env scopeId filePaths w = (r, w') ->
  trace w' = trace w ++ [AnalyzeFilesAndTrack scopeId filePaths].
Proof.
  unfold analyzeFilesAndTrack, bind, emit. simpl.
  destruct (analysisReply env _ _); now intros [= <- <-].
Qed.

(** The batch tool unfolded into its successive steps. *)
Lemma handleApplyAllQuickFixes_cases env filePath w :
  handleApplyAllQuickFixes env filePath w
  = match files w !! filePath with
    | None => (inl (fileNotFound filePath), w)
    | Some _ =>
      match ensureSloopBridge env w with
      | (inl e, w1) => (inl e, w1)
      | (inr _, w1) =>
        match getOrCreateScope filePath w1 with
        | (inl e, w2) => (inl e, w2)
        | (inr scopeId, w2) =>
          match analyzeFilesAndTrack env scopeId [filePath] w2 with
          | (inl e, w3) => (inl e, w3)
          | (inr rawIssues, w3) =>
            match issuesWithQuickFixes rawIssues with
            | [] => (inr (NoQuickFixesAvailable filePath (length rawIssues)), w3)
            | _ :: _ =>
              match applyLoop filePath (plan rawIssues) [] [] w3 with
              | (inl e, w4) => (inl e, w4)
              | (inr (applied, failed), w4) =>
                match notifyFileSystemChanged env filePath scopeId w4 with
                | (inl e, w5) => (inl e, w5)
                | (inr _, w5) =>
                  match analyzeFilesAndTrack env scopeId [filePath]
                          (snd (emit (Sleep 500) w5)) with
                  | (inl e, w6) => (inl e, w6)
                  | (inr remaining, w6) =>
                      (inr (QuickFixesApplied filePath applied failed remaining), w6)
                  end
                end
              end
            end
          end
        end
      end
    end.
Proof.
  unfold handleApplyAllQuickFixes, bind at 1, existsSync.
  destruct (files w !! filePath) as [content|] eqn:Hfile; simpl; [|reflexivity].
  unfold bind at 1. destruct (ensureSloopBridge env w) as [[e|[]] w1]; [reflexivity|].
  unfold bind at 1. destruct (getOrCreateScope filePath w1) as [[e|scopeId] w2]; [reflexivity|].
  unfold bind at 1.
  destruct (analyzeFilesAndTrack env scopeId [filePath] w2) as [[e|rawIssues] w3]; [reflexivity|].
  unfold plan.
  destruct (issuesWithQuickFixes rawIssues) as [|i0 is0]; [reflexivity|].
  cbn [length Nat.eqb]. unfold bind at 1.
  destruct (applyLoop filePath _ [] [] w3) as [[e|[applied failed]] w4]; [reflexivity|].
  unfold bind at 1.
  destruct (notifyFileSystemChanged env filePath scopeId w4) as [[e|[]] w5]; [reflexivity|].
  unfold bind at 1.
  change (emit (Sleep 500) w5) with (@inr JS.error unit tt, snd (emit (Sleep 500) w5)).
  cbv beta iota. unfold bind at 1.
  destruct (analyzeFilesAndTrack env scopeId [filePath] _) as [[e|remaining] w6]; reflexivity.
Qed.

(** C6: when the first analysis reports no issue with a quick fix, the batch
    tool answers "no quick fixes available", applies nothing and performs
    no write: the disk is as before the call. *)
Theorem C6_no_fixes_no_writes
        (env : Env) (filePath : string) (w w1 w2 w3 : World)
        (content scopeId : string) (rawIssues : list Issue) :
  files w !! filePath = Some content ->
  ensureSloopBridge env w = (inr tt, w1) ->
  getOrCreateScope filePath w1 = (inr scopeId, w2) ->
  analyzeFilesAndTrack env scopeId [filePath] w2 = (inr rawIssues, w3) ->
  issuesWithQuickFixes rawIssues = [] ->
  handleApplyAllQuickFixes env filePath w
  = (inr (NoQuickFixesAvailable filePath (length rawIssues)), w3)
  /\ appliedCount (NoQuickFixesAvailable filePath (length rawIssues)) = 0%nat
  /\ files w3 = files w
  /\ writes (trace w3) = writes (trace w).
Proof.
  intros Hfile Hensure Hscope Hanalyze Hnone.
  rewrite handleApplyAllQuickFixes_cases, Hfile, Hensure, Hscope, Hanalyze, Hnone.
  split; [reflexivity|]. split; [reflexivity|].
  pose proof (quiet_trans _ _ _
                (quiet_trans _ _ _ (ensureSloopBridge_quiet _ _ _ _ Hensure)
                             (getOrCreateScope_quiet _ _ _ _ Hscope))
                (analyzeFilesAndTrack_quiet _ _ _ _ _ _ Hanalyze)) as (Hf & _ & Hw).
  split; assumption.
Qed.

Lemma C6_no_fixes_no_writes_witness :
  let issues := [ Sample.issueAt 10 "javascript:S1854" (Some []);
                  Sample.issueAt 20 "javascript:S1172" None ] in
  let env := Sample.backend issues in
  let w := Sample.disk "const answer = 42;" in
  exists w',
    handleApplyAllQuickFixes env Sample.path w
    = (inr (NoQuickFixesAvailable Sample.path 2), w')
    /\ files w' = files w
    /\ writes (trace w') = [].
Proof.
  intros issues env w.
  destruct (C6_no_fixes_no_writes env Sample.path w
              (snd (ensureSloopBridge env w))
              (snd (getOrCreateScope Sample.path (snd (ensureSloopBridge env w))))
              (snd (analyzeFilesAndTrack env "scope-1e0bb3be" [Sample.path]
                      (snd (getOrCreateScope Sample.path (snd (ensureSloopBridge env w))))))
              "const answer = 42;" "scope-1e0bb3be" issues
              ltac:(vm_compute; reflexivity) eq_refl ltac:(vm_compute; reflexivity)
              eq_refl eq_refl)
    as (Hrun & _ & Hfiles & Hwrites).
  eexists. split; [exact Hrun|]. split; [exact Hfiles | exact Hwrites].
Defined.

(** ** Cache Invalidation Notifier *)

Lemma notified_refl w : notified w w.
Proof.
  split; [apply quiet_refl|]. split; [reflexivity|].
  exists []. now rewrite app_nil_r.
Qed.

Lemma notified_trans w1 w2 w3 : notified w1 w2 -> notified w2 w3 -> notified w1 w3.
Proof.
  intros (Hq & Hs & evs & Ht & He) (Hq' & Hs' & evs' & Ht' & He').
  split; [eapply quiet_trans; eauto|]. split; [congruence|].
  exists (evs ++ evs'). split.
  - now rewrite Ht', Ht, app_assoc.
  - now rewrite forallb_app, He, He'.
Qed.

Lemma emit_notified ev w :
  isNotification ev = true -> notified w (snd (emit ev w)).
Proof.
  intros Hev. split; [|split; [reflexivity|]].
  - repeat split; simpl. apply writes_snoc. now destruct ev.
  - exists [ev]. simpl. now rewrite Hev.
Qed.

Lemma ensureSloopBridge_notified env w r w' :
  ensureSloopBridge env w = (r, w') -> notified w w'.
Proof.
  unfold ensureSloopBridge.
  destruct (sloopBridge w); [intros [= <- <-]; apply notified_refl|].
  destruct (pluginsInstalled env); simpl; [|intros [= <- <-]; apply notified_refl].
  destruct (connectError env); intros [= <- <-]; [apply notified_refl|].
  apply (emit_notified Connect w eq_refl).
Qed.

Lemma sendNotification_notified env ev w r w' :
  isNotification ev = true -> sendNotification env ev w = (r, w') -> notified w w'.
Proof.
  intros Hev. unfold sendNotification.
  destruct (notificationError env ev); intros [= <- <-];
    [apply notified_refl | now apply emit_notified].
Qed.

Lemma notifyBody_notified env filePath configScopeId uri relativePath w r w' :
  notifyBody env filePath configScopeId uri relativePath w = (r, w') -> notified w w'.
Proof.
  unfold notifyBody. unfold bind at 1.
  destruct (ensureSloopBridge env w) as [[e|[]] w1] eqn:H1;
    [intros [= <- <-]; eapply ensureSloopBridge_notified; eauto|].
  apply ensureSloopBridge_notified in H1.
  unfold bind at 1.
  destruct (sendNotification env _ w1) as [[e|[]] w2] eqn:H2;
    apply sendNotification_notified in H2; try reflexivity;
    [intros [= <- <-]; eapply notified_trans; eauto|].
  unfold bind at 1, readFileSync.
  destruct (files w2 !! filePath) as [content|];
    [|intros [= <- <-]; eapply notified_trans; eauto].
  intros H3. apply sendNotification_notified in H3; [|reflexivity].
  eauto using notified_trans.
Qed.

(** The notifier always returns normally; a failure of its body is logged. *)
Lemma notifyFileSystemChanged_total env filePath configScopeId w :
  exists w',
    notifyFileSystemChanged env filePath configScopeId w = (inr tt, w')
    /\ quiet w w'
    /\ (exists evs, trace w' = trace w ++ evs /\ forallb isNotification evs = true)
    /\ ((exists uri relativePath,
            fst (notifyBody env filePath configScopeId uri relativePath w) = inr tt
            /\ stderr w' = stderr w)
        \/ (exists uri relativePath err,
               fst (notifyBody env filePath configScopeId uri relativePath w) = inl err
               /\ stderr w' = stderr w ++ [notifyFailureLog filePath err])).
Proof.
  unfold notifyFileSystemChanged, bind, attempt.
  match goal with
  | |- context [notifyBody env filePath configScopeId ?u ?r w] =>
      destruct (notifyBody env filePath configScopeId u r w) as [[err|[]] w1] eqn:Hbody;
      pose proof (notifyBody_notified _ _ _ _ _ _ _ _ Hbody) as (Hq & Hs & Hevs);
      [exists (snd (consoleError (notifyFailureLog filePath err) w1))
      |exists w1];
      (split; [reflexivity|]); (split; [exact Hq|]); (split; [exact Hevs|]);
      [right; exists u, r, err | left; exists u, r];
      rewrite Hbody; simpl; split; auto; now rewrite Hs
  end.
Qed.

(** The single-fix tool unfolded into its successive steps. *)
Lemma handleApplyQuickFix_cases env filePath line rule w :
  handleApplyQuickFix env filePath line rule w
  = match files w !! filePath with
    | None => (inl (fileNotFound filePath), w)
    | Some _ =>
      match ensureSloopBridge env w with
      | (inl e, w1) => (inl e, w1)
      | (inr _, w1) =>
        match getOrCreateScope filePath w1 with
        | (inl e, w2) => (inl e, w2)
        | (inr scopeId, w2) =>
          match analyzeFilesAndTrack env scopeId [filePath] w2 with
          | (inl e, w3) => (inl e, w3)
          | (inr rawIssues, w3) =>
            match List.find (isTarget line rule) rawIssues with
            | None => (inl (issueNotFound line rule), w3)
            | Some targetIssue =>
              match quickFixes targetIssue with
              | None => (inl (noQuickFixAvailable line rule), w3)
              | Some nil => (inl (noQuickFixAvailable line rule), w3)
              | Some (quickFix :: _) =>
                match writeFileSync debugPath (debugDump env targetIssue) w3 with
                | (inl e, w4) => (inl e, w4)
                | (inr _, w4) =>
                  match files w4 !! filePath with
                  | None => (inl (JS.ENOENT filePath), w4)
                  | Some content =>
                    match applyQuickFix (JS.split_lines content) quickFix with
                    | inl e => (inl e, w4)
                    | inr lines' =>
                      match writeFileSync filePath (JS.join_lines lines') w4 with
                      | (inl err, w5) =>
                          (inl err,
                           snd (consoleError ("[DEBUG] Error writing file: "
                                              +:+ JS.error_message err) w5))
                      | (inr _, w5) =>
                        match notifyFileSystemChanged env filePath scopeId w5 with
                        | (inl e, w6) => (inl e, w6)
                        | (inr _, w6) =>
                            (inr (QuickFixApplied filePath line rule
                                    (JS.str_or (message quickFix) "Applied automated fix")),
                             snd (emit (Sleep 500) w6))
                        end
                      end
                    end
                  end
                end
              end
            end
          end
        end
      end
    end.
Proof.
  unfold handleApplyQuickFix, bind at 1, existsSync.
  destruct (files w !! filePath) as [content|] eqn:Hfile; [|reflexivity].
  change (bool_decide (is_Some (Some content))) with true.
  cbv beta iota delta [negb].
  unfold bind at 1. destruct (ensureSloopBridge env w) as [[e|[]] w1]; [reflexivity|].
  unfold bind at 1. destruct (getOrCreateScope filePath w1) as [[e|scopeId] w2]; [reflexivity|].
  unfold bind at 1.
  destruct (analyzeFilesAndTrack env scopeId [filePath] w2) as [[e|rawIssues] w3]; [reflexivity|].
  destruct (List.find (isTarget line rule) rawIssues) as [targetIssue|]; [|reflexivity].
  destruct (quickFixes targetIssue) as [[|quickFix more]|]; try reflexivity.
  unfold bind at 1.
  destruct (writeFileSync debugPath (debugDump env targetIssue) w3) as [[e|[]] w4];
    [reflexivity|].
  unfold bind at 1, readFileSync.
  destruct (files w4 !! filePath) as [content'|]; [|reflexivity].
  unfold bind at 1, lift.
  destruct (applyQuickFix (JS.split_lines content') quickFix) as [e|lines']; [reflexivity|].
  unfold bind at 1, attempt.
  destruct (writeFileSync filePath (JS.join_lines lines') w4) as [[err|[]] w5].
  - unfold bind at 1, consoleError, throw. reflexivity.
  - unfold bind at 1.
    destruct (notifyFileSystemChanged env filePath scopeId w5) as [[e|[]] w6]; [reflexivity|].
    unfold bind at 1.
    reflexivity.
Qed.

(** C8: the notifier never fails: whatever goes wrong while it talks to the
    backend is caught and logged, and the call returns normally, leaving the
    disk alone and adding only notification traffic.  In the batch tool the
    trace of a completed run ends with the notifier's doing, then the 500 ms
    timer, then the second analysis; in the single-fix tool it ends with
    the notifier's doing and the 500 ms timer.  With a backend refusing
    every notification the sample batch still completes with 4 fixes
    applied and 1 failed, the refusal being logged. *)
Theorem C8_notification_failures_swallowed (env : Env) (filePath : string) :
  (forall configScopeId w,
      exists w',
        notifyFileSystemChanged env filePath configScopeId w = (inr tt, w')
        /\ quiet w w'
        /\ (exists evs, trace w' = trace w ++ evs /\ forallb isNotification evs = true)
        /\ ((exists uri relativePath,
                fst (notifyBody env filePath configScopeId uri relativePath w) = inr tt
                /\ stderr w' = stderr w)
            \/ (exists uri relativePath err,
                   fst (notifyBody env filePath configScopeId uri relativePath w) = inl err
                   /\ stderr w' = stderr w ++ [notifyFailureLog filePath err])))
  /\ (forall w applied failed remaining w',
         handleApplyAllQuickFixes env filePath w
         = (inr (QuickFixesApplied filePath applied failed remaining), w') ->
         exists scopeId rawIssues w3 w4 w5,
           applyLoop filePath (plan rawIssues) [] [] w3 = (inr (applied, failed), w4)
           /\ notifyFileSystemChanged env filePath scopeId w4 = (inr tt, w5)
           /\ trace w' = trace w5 ++ [Sleep 500; AnalyzeFilesAndTrack scopeId [filePath]])
  /\ (forall w line rule result w',
         handleApplyQuickFix env filePath line rule w = (inr result, w') ->
         exists scopeId w5 w6,
           notifyFileSystemChanged env filePath scopeId w5 = (inr tt, w6)
           /\ trace w' = trace w6 ++ [Sleep 500])
  /\ match handleApplyAllQuickFixes (Sample.deafBackend Sample.fiveIssues) Sample.path
             (Sample.disk (JS.join_lines Sample.sourceLines)) with
     | (inr result, w') =>
         appliedCount result = 4%nat /\ failedCount result = 1%nat
         /\ last (stderr w')
            = Some (notifyFailureLog Sample.path (JS.OtherError "bridge closed"))
         /\ files w' !! Sample.path = Some (JS.join_lines Sample.fixedLines)
     | _ => False
     end.
Proof.
  split; [|split; [|split]].
  - intros configScopeId w. apply notifyFileSystemChanged_total.
  - intros w applied failed remaining w'.
    rewrite handleApplyAllQuickFixes_cases.
    destruct (files w !! filePath); [|discriminate].
    destruct (ensureSloopBridge env w) as [[e|[]] w1]; [discriminate|].
    destruct (getOrCreateScope filePath w1) as [[e|scopeId] w2]; [discriminate|].
    destruct (analyzeFilesAndTrack env scopeId [filePath] w2) as [[e|rawIssues] w3];
      [discriminate|].
    destruct (issuesWithQuickFixes rawIssues); [discriminate|].
    destruct (applyLoop filePath (plan rawIssues) [] [] w3) as [[e|[applied0 failed0]] w4]
      eqn:Hloop; [discriminate|].
    destruct (notifyFileSystemChanged_total env filePath scopeId w4) as (w5 & Hnotify & _).
    rewrite Hnotify.
    destruct (analyzeFilesAndTrack env scopeId [filePath] (snd (emit (Sleep 500) w5)))
      as [[e|remaining0] w6] eqn:Hagain; [discriminate|].
    intros [= <- <- <- <-].
    exists scopeId, rawIssues, w3, w4, w5. split; [exact Hloop|]. split; [exact Hnotify|].
    rewrite (analyzeFilesAndTrack_trace _ _ _ _ _ _ Hagain). simpl.
    now rewrite <- app_assoc.
  - intros w line rule result w'.
    rewrite handleApplyQuickFix_cases.
    destruct (files w !! filePath); [|discriminate].
    destruct (ensureSloopBridge env w) as [[e|[]] w1]; [discriminate|].
    destruct (getOrCreateScope filePath w1) as [[e|scopeId] w2]; [discriminate|].
    destruct (analyzeFilesAndTrack env scopeId [filePath] w2) as [[e|rawIssues] w3];
      [discriminate|].
    destruct (List.find (isTarget line rule) rawIssues) as [targetIssue|]; [|discriminate].
    destruct (quickFixes targetIssue) as [[|quickFix more]|]; try discriminate.
    destruct (writeFileSync debugPath _ w3) as [[e|[]] w4]; [discriminate|].
    destruct (files _ !! filePath) as [content|]; [|discriminate].
    destruct (applyQuickFix (JS.split_lines content) quickFix) as [e|lines']; [discriminate|].
    destruct (writeFileSync filePath (JS.join_lines lines') _) as [[err|[]] w5];
      [discriminate|].
    destruct (notifyFileSystemChanged_total env filePath scopeId w5) as (w6 & Hnotify & _).
    rewrite Hnotify. intros [= <- <-].
    exists scopeId, w5, w6. split; [exact Hnotify | reflexivity].
  - vm_compute. repeat split.
Qed.

Lemma C8_notification_failures_swallowed_witness :
  let env := Sample.backend Sample.fiveIssues in
  let w := Sample.disk (JS.join_lines Sample.sourceLines) in
  let run := handleApplyQuickFix env Sample.path 3 "javascript:S3504" w in
  fst run = inr (QuickFixApplied Sample.path 3 "javascript:S3504" "Replace var with const")
  /\ exists scopeId w5 w6,
      notifyFileSystemChanged env Sample.path scopeId w5 = (inr tt, w6)
      /\ trace (snd run) = trace w6 ++ [Sleep 500].
Proof.
  intros env w run.
  assert (Hrun : run = (inr (QuickFixApplied Sample.path 3 "javascript:S3504"
                                              "Replace var with const"), snd run))
    by (vm_compute; reflexivity).
  split; [now rewrite Hrun|].
  pose proof (C8_notification_failures_swallowed env Sample.path) as (_ & _ & Hsingle & _).
  exact (Hsingle w 3 "javascript:S3504"
           (QuickFixApplied Sample.path 3 "javascript:S3504" "Replace var with const")
           (snd run) Hrun).
Defined.

(** ** The single-fix tool *)

Lemma find_isTarget_None line rule rawIssues :
  List.find (isTarget line rule) rawIssues = None
  <-> ~ exists issue, issue ∈ rawIssues /\ issueLine issue = line /\ ruleKey issue = rule.
Proof.
  split.
  - intros Hnone (issue & Hin & Hline & Hrule).
    apply list_elem_of_In in Hin.
    pose proof (List.find_none _ _ Hnone issue Hin) as Hno.
    unfold isTarget in Hno. rewrite Hline, Hrule, Z.eqb_refl, String.eqb_refl in Hno.
    discriminate.
  - intros Hno. destruct (List.find (isTarget line rule) rawIssues) as [issue|] eqn:Hfind;
      [|reflexivity].
    exfalso. apply Hno. apply List.find_some in Hfind as [Hin Htarget].
    unfold isTarget in Htarget. apply andb_true_iff in Htarget as [Hline Hrule].
    exists issue. split; [now apply list_elem_of_In|].
    split; [now apply Z.eqb_eq | now apply String.eqb_eq].
Qed.

(** C7, as stated, fails in its last clause: the file exists, the fresh
    analysis holds an issue at line 7 with the rule asked for and a quick
    fix, and still the call does not succeed: the fix's range ends beyond
    the file and the resulting [TypeError] escapes, there being no
    [try]/[catch] around the edits of the single-fix tool. *)
Lemma C7_counterexample :
  let env := Sample.backend Sample.fiveIssues in
  let w := Sample.disk (JS.join_lines Sample.sourceLines) in
  is_Some (files w !! Sample.path)
  /\ (exists target fix1,
         List.find (isTarget 7 "javascript:S1154") Sample.fiveIssues = Some target
         /\ issueLine target = 7 /\ ruleKey target = "javascript:S1154"
         /\ quickFixes target = Some [fix1])
  /\ fst (handleApplyQuickFix env Sample.path 7 "javascript:S1154" w)
     = inl (JS.TypeError "Cannot read properties of undefined (reading 'substring')")
  /\ files (snd (handleApplyQuickFix env Sample.path 7 "javascript:S1154" w)) !! Sample.path
     = files w !! Sample.path.
Proof.
  intros env w. split; [vm_compute; eauto|]. split.
  - eexists _, _. repeat split.
  - split; vm_compute; reflexivity.
Qed.

Lemma writeFileSync_cases path content w :
  writeFileSync path content w
  = if bool_decide (path ∈ unwritable w)
    then (inl (JS.EACCES path), w)
    else (inr tt, snd (writeFileSync path content w)).
Proof. unfold writeFileSync. now destruct (bool_decide _). Qed.

Lemma writeFileSync_done path content w w' :
  writeFileSync path content w = (inr tt, w') ->
  files w' = <[path := content]> (files w) /\ unwritable w' = unwritable w.
Proof.
  unfold writeFileSync. destruct (bool_decide _); [discriminate|].
  now intros [= <-].
Qed.

Lemma writeFileSync_written path content w :
  bool_decide (path ∈ unwritable w) = false ->
  files (snd (writeFileSync path content w)) = <[path := content]> (files w).
Proof. unfold writeFileSync. now intros ->. Qed.

(** C7 (amended): the single-fix tool raises FileNotFound, touching no
    state and calling no backend, when the file does not exist.  Given the
    file, a ready bridge and an analysis result, it raises IssueNotFound
    exactly when no analysed issue has the given start line and rule; it
    raises NoQuickFixAvailable when the first such issue has no quick-fix
    list or an empty one; otherwise it first writes its debug dump of the
    issue to /tmp/quickfix-debug.json, failing with the error of that
    write when it is refused, and then applies the first quick fix of that
    issue to the lines of the file as it is after the dump (its content at
    the call, unless the file is the dump itself): an error of the edits
    or a refused write of the file is passed on to the caller with the
    disk as the dump left it, and else the call succeeds with the edited
    lines written back. *)
Theorem C7_single_fix_outcomes
        (env : Env) (filePath : string) (line : Z) (rule : string) (w : World) :
  (files w !! filePath = None ->
   handleApplyQuickFix env filePath line rule w = (inl (fileNotFound filePath), w))
  /\ (forall content w1 scopeId w2 rawIssues w3,
         files w !! filePath = Some content ->
         ensureSloopBridge env w = (inr tt, w1) ->
         getOrCreateScope filePath w1 = (inr scopeId, w2) ->
         analyzeFilesAndTrack env scopeId [filePath] w2 = (inr rawIssues, w3) ->
         let result := handleApplyQuickFix env filePath line rule w in
         (fst result = inl (issueNotFound line rule)
          <-> ~ exists issue, issue ∈ rawIssues /\ issueLine issue = line
                              /\ ruleKey issue = rule)
         /\ (forall target,
                List.find (isTarget line rule) rawIssues = Some target ->
                quickFixes target = None \/ quickFixes target = Some [] ->
                result = (inl (noQuickFixAvailable line rule), w3))
         /\ (forall target quickFix more,
                List.find (isTarget line rule) rawIssues = Some target ->
                quickFixes target = Some (quickFix :: more) ->
                if bool_decide (debugPath ∈ unwritable w)
                then result = (inl (JS.EACCES debugPath), w3)
                else
                  let dumped := <[debugPath := debugDump env target]> (files w) in
                  exists current,
                    dumped !! filePath = Some current
                    /\ (filePath <> debugPath -> current = content)
                    /\ match applyQuickFix (JS.split_lines current) quickFix with
                       | inl err =>
                           fst result = inl err /\ files (snd result) = dumped
                       | inr lines' =>
                           if bool_decide (filePath ∈ unwritable w)
                           then fst result = inl (JS.EACCES filePath)
                                /\ files (snd result) = dumped
                           else fst result
                                = inr (QuickFixApplied filePath line rule
                                         (JS.str_or (message quickFix)
                                                    "Applied automated fix"))
                                /\ files (snd result)
                                   = <[filePath := JS.join_lines lines']> dumped
                       end)).
Proof.
  split.
  - intros Hnone. now rewrite handleApplyQuickFix_cases, Hnone.
  - intros content w1 scopeId w2 rawIssues w3 Hfile Hensure Hscope Hanalyze result.
    pose proof (quiet_trans _ _ _
                  (quiet_trans _ _ _ (ensureSloopBridge_quiet _ _ _ _ Hensure)
                               (getOrCreateScope_quiet _ _ _ _ Hscope))
                  (analyzeFilesAndTrack_quiet _ _ _ _ _ _ Hanalyze)) as (Hf & Hro & _).
    unfold result.
    rewrite handleApplyQuickFix_cases, Hfile, Hensure, Hscope, Hanalyze.
    split; [|split].
    + rewrite <- find_isTarget_None.
      destruct (List.find _ rawIssues) as [target|]; [|tauto].
      split; [|discriminate].
      destruct (quickFixes target) as [[|quickFix more]|]; try discriminate.
      rewrite writeFileSync_cases.
      destruct (bool_decide (debugPath ∈ _)); [discriminate|].
      destruct (files (snd (writeFileSync debugPath _ w3)) !! filePath); [|discriminate].
      destruct (applyQuickFix _ quickFix) as [e|lines'] eqn:Happly.
      * apply applyQuickFix_error in Happly. subst e. discriminate.
      * rewrite writeFileSync_cases.
        destruct (bool_decide (filePath ∈ _)); [discriminate|].
        match goal with
        | |- context [notifyFileSystemChanged env filePath scopeId ?w5] =>
            destruct (notifyFileSystemChanged_total env filePath scopeId w5)
              as (w6 & Hnotify & _); rewrite Hnotify
        end.
        discriminate.
    + intros target Hfind [Hq|Hq]; now rewrite Hfind, Hq.
    + intros target quickFix more Hfind Hq. rewrite Hfind, Hq.
      rewrite (writeFileSync_cases debugPath), Hro.
      destruct (bool_decide (debugPath ∈ unwritable w)) eqn:Hdebug; [reflexivity|].
      rewrite <- Hro in Hdebug.
      pose proof (writeFileSync_written debugPath (debugDump env target) w3 Hdebug) as Hf4.
      assert (Hro4 : unwritable (snd (writeFileSync debugPath (debugDump env target) w3))
                     = unwritable w3)
        by (unfold writeFileSync; now rewrite Hdebug).
      rewrite Hf in Hf4.
      set (w4 := snd (writeFileSync debugPath (debugDump env target) w3)) in *.
      cbv zeta. set (dumped := <[debugPath := debugDump env target]> (files w)) in *.
      assert (Hcurrent : exists current,
                 files w4 !! filePath = Some current
                 /\ (filePath <> debugPath -> current = content)).
      { rewrite Hf4. unfold dumped. destruct (decide (filePath = debugPath)) as [->|Hne].
        - rewrite lookup_insert_eq. eexists. split; [reflexivity | congruence].
        - rewrite lookup_insert_ne by congruence. exists content. auto. }
      destruct Hcurrent as (current & Hcurrent & Hsame). exists current.
      split; [now rewrite <- Hf4|]. split; [exact Hsame|].
      rewrite Hcurrent.
      destruct (applyQuickFix _ quickFix) as [e|lines'].
      * split; [reflexivity | exact Hf4].
      * rewrite writeFileSync_cases, Hro4, Hro.
        destruct (bool_decide (filePath ∈ unwritable w)) eqn:Hrefused;
          [split; [reflexivity | exact Hf4]|].
        rewrite <- Hro, <- Hro4 in Hrefused.
        pose proof (writeFileSync_written filePath (JS.join_lines lines') w4 Hrefused) as Hf5.
        match goal with
        | |- context [notifyFileSystemChanged env filePath scopeId ?w5] =>
            destruct (notifyFileSystemChanged_total env filePath scopeId w5)
              as (w6 & Hnotify & (Hf6 & _) & _); rewrite Hnotify
        end.
        split; [reflexivity|]. cbn [snd]. change (files (snd (emit (Sleep 500) w6)))
          with (files w6).
        now rewrite Hf6, Hf5, Hf4.
Qed.

Lemma C7_single_fix_outcomes_witness :
  let env := Sample.backend Sample.fiveIssues in
  let w := Sample.disk (JS.join_lines Sample.sourceLines) in
  handleApplyQuickFix env "/work/missing.js" 3 "javascript:S3504" w
  = (inl (fileNotFound "/work/missing.js"), w)
  /\ fst (handleApplyQuickFix env Sample.path 11 "javascript:S3626" w)
     = inr (QuickFixApplied Sample.path 11 "javascript:S3626" "Remove redundant return")
  /\ files (snd (handleApplyQuickFix env Sample.path 11 "javascript:S3626" w)) !! Sample.path
     = Some (JS.join_lines (<[10%nat := "  "]> Sample.sourceLines)).
Proof.
  intros env w. split.
  - exact (proj1 (C7_single_fix_outcomes env "/work/missing.js" 3 "javascript:S3504" w)
             ltac:(vm_compute; reflexivity)).
  - pose proof (C7_single_fix_outcomes env Sample.path 11 "javascript:S3626" w)
      as [_ Hgiven].
    destruct (Hgiven (JS.join_lines Sample.sourceLines)
                (snd (ensureSloopBridge env w))
                "scope-1e0bb3be"
                (snd (getOrCreateScope Sample.path (snd (ensureSloopBridge env w))))
                Sample.fiveIssues
                (snd (analyzeFilesAndTrack env "scope-1e0bb3be" [Sample.path]
                        (snd (getOrCreateScope Sample.path (snd (ensureSloopBridge env w))))))
                ltac:(vm_compute; reflexivity) eq_refl ltac:(vm_compute; reflexivity) eq_refl)
      as (_ & _ & Hfix).
    pose proof (Hfix Sample.removeReturn _ _ eq_refl eq_refl) as Houtcome.
    rewrite bool_decide_eq_false_2 in Houtcome by (vm_compute; set_solver).
    destruct Houtcome as (current & _ & Hsame & Houtcome).
    rewrite (Hsame ltac:(discriminate)) in Houtcome.
    change (applyQuickFix (JS.split_lines (JS.join_lines Sample.sourceLines)) _)
      with (@inr JS.error _ (<[10%nat := "  "]> Sample.sourceLines)) in Houtcome.
    rewrite bool_decide_eq_false_2 in Houtcome by (vm_compute; set_solver).
    destruct Houtcome as [Hresult Hfiles].
    split; [exact Hresult|]. rewrite Hfiles. apply lookup_insert_eq.
Defined.

(* ===================================================================== *)
(** * Part III: further properties of the code                             *)
(* ===================================================================== *)

(** ** More on the Edit Applier *)

Lemma split_lines_nonempty s : JS.split_lines s <> [].
Proof.
  destruct s as [|c s]; simpl; [discriminate|].
  destruct (Ascii.eqb c JS.newline); [discriminate|].
  destruct (JS.split_lines s); discriminate.
Qed.

Lemma join_lines_cons l ls :
  ls <> [] -> JS.join_lines (l :: ls) = l +:+ String JS.newline (JS.join_lines ls).
Proof. destruct ls; [congruence | reflexivity]. Qed.

Lemma join_split s : JS.join_lines (JS.split_lines s) = s.
Proof.
  induction s as [|c s IH]; [reflexivity|]. simpl.
  destruct (Ascii.eqb_spec c JS.newline) as [->|Hc].
  - rewrite join_lines_cons by apply split_lines_nonempty. now rewrite IH.
  - destruct (JS.split_lines s) as [|l ls] eqn:Hs; [now apply split_lines_nonempty in Hs|].
    destruct ls as [|l' ls].
    + simpl in *. now rewrite IH.
    + rewrite join_lines_cons by discriminate.
      rewrite join_lines_cons in IH by discriminate.
      rewrite <- IH. reflexivity.
Qed.

Lemma applyTextEdits_nil lines : applyTextEdits lines [] = inr lines.
Proof. reflexivity. Qed.

Lemma applyFileEdits_no_text_edits edits lines :
  concat (map (fun fe => default [] (textEdits fe)) edits) = [] ->
  applyFileEdits lines edits = inr lines.
Proof.
  induction edits as [|fe rest IH]; simpl; [reflexivity|].
  intros Hnil. apply app_eq_nil in Hnil as [Hfe Hrest].
  unfold applyFileEdit. destruct (textEdits fe) as [tes|]; simpl in Hfe.
  - subst tes. simpl. auto.
  - auto.
Qed.

Lemma applyQuickFix_no_text_edits lines quickFix :
  fixTextEdits quickFix = [] -> applyQuickFix lines quickFix = inr lines.
Proof.
  intros Hnil. unfold applyQuickFix.
  destruct (_ <? _); [|reflexivity]. now apply applyFileEdits_no_text_edits.
Qed.

Lemma index_None {A} (l : list A) (i : Z) :
  JS.index l i = None <-> i < 0 \/ Z.of_nat (length l) <= i.
Proof.
  unfold JS.index. destruct (Z.ltb_spec i 0) as [Hneg|Hpos].
  - split; auto.
  - rewrite lookup_ge_None. split; [intros; right; lia | intros [?|?]; lia].
Qed.

Lemma index_app_l {A} (l k : list A) (i : Z) :
  i < Z.of_nat (length l) -> JS.index (l ++ k) i = JS.index l i.
Proof.
  intros Hi. unfold JS.index. destruct (Z.ltb_spec i 0); [reflexivity|].
  apply lookup_app_l. lia.
Qed.

(** Without anything to delete, [splice] inserts. *)
Lemma splice_insert {A} (l : list A) (s c : Z) (item : A) :
  0 <= s -> s <= Z.of_nat (length l) -> c <= 0 ->
  JS.splice l s c item = take (Z.to_nat s) l ++ item :: drop (Z.to_nat s) l.
Proof.
  intros Hs Hlen Hc. unfold JS.splice.
  destruct (Z.ltb_spec s 0); [lia|].
  rewrite (Z.min_l s) by lia. rewrite (Z.max_r c 0) by lia.
  rewrite (Z.min_l 0) by lia. now rewrite Z.add_0_r.
Qed.

(** Every successful edit has the same shape: the lines before its start
    line, one merged line, and the lines from [resumeAt] on. *)
Lemma applyTextEdit_shape lines edit lines' :
  applyTextEdit lines edit = inr lines' ->
  0 <= editStartLine edit
  /\ (Z.to_nat (editStartLine edit) < length lines)%nat
  /\ lines' = take (Z.to_nat (editStartLine edit)) lines
              ++ mergedLine lines edit :: drop (resumeAt edit) lines.
Proof.
  unfold applyTextEdit, mergedLine, resumeAt, lineAt.
  destruct (JS.index lines (editStartLine edit)) as [first|] eqn:Hfirst;
    [|destruct (_ =? _); discriminate].
  destruct (index_Some _ _ _ Hfirst) as (Hs & Hlook & Hlt).
  destruct (Z.eqb_spec (editStartLine edit) (editEndLine edit)) as [Heq|Hne].
  - intros [= <-]. split; [exact Hs|]. split; [exact Hlt|].
    rewrite <- Heq, Hfirst, Z.leb_refl. simpl.
    rewrite substring_prefix, substring_suffix.
    now apply insert_take_drop.
  - destruct (JS.index lines (editEndLine edit)) as [last|] eqn:Hlast; [|discriminate].
    destruct (index_Some _ _ _ Hlast) as (He & _ & Hlt').
    intros [= <-]. split; [exact Hs|]. split; [exact Hlt|]. simpl.
    rewrite substring_prefix, substring_suffix, str_app_assoc.
    destruct (Z.leb_spec (editStartLine edit) (editEndLine edit)).
    + now rewrite splice_range by lia.
    + now rewrite splice_insert by lia.
Qed.

Lemma applyTextEdit_prefix lines edit lines' :
  applyTextEdit lines edit = inr lines' ->
  take (Z.to_nat (editStartLine edit)) lines' = take (Z.to_nat (editStartLine edit)) lines.
Proof.
  intros Happly. destruct (applyTextEdit_shape _ _ _ Happly) as (_ & Hlt & ->).
  rewrite take_app_le by (rewrite length_take; lia).
  rewrite take_take. f_equal. lia.
Qed.

(** The lines after an edit's range are carried along untouched. *)
Lemma applyTextEdit_frame before after edit :
  0 <= editStartLine edit < Z.of_nat (length before) ->
  0 <= editEndLine edit < Z.of_nat (length before) ->
  exists before',
    applyTextEdit before edit = inr before'
    /\ applyTextEdit (before ++ after) edit = inr (before' ++ after).
Proof.
  intros Hs He.
  destruct (JS.index before (editStartLine edit)) as [first|] eqn:Hfirst;
    [|apply index_None in Hfirst; lia].
  destruct (JS.index before (editEndLine edit)) as [last|] eqn:Hlast;
    [|apply index_None in Hlast; lia].
  assert (Hcol : editEndCol (before ++ after) edit = editEndCol before edit).
  { unfold editEndCol, lineLength. now rewrite index_app_l by lia. }
  unfold applyTextEdit, lineAt. rewrite Hcol.
  rewrite !index_app_l by lia. rewrite Hfirst, Hlast.
  destruct (Z.eqb_spec (editStartLine edit) (editEndLine edit)) as [Heq|Hne].
  - eexists. split; [reflexivity|]. f_equal.
    rewrite insert_app_l by lia. reflexivity.
  - eexists. split; [reflexivity|]. f_equal.
    unfold JS.splice. rewrite length_app.
    destruct (Z.ltb_spec (editStartLine edit) 0); [lia|].
    set (s := editStartLine edit) in *. set (e := editEndLine edit) in *.
    rewrite !(Z.min_l s) by lia.
    set (c := Z.max (e - s + 1) 0).
    assert (Hc : 0 <= c <= Z.of_nat (length before) - s) by (unfold c; lia).
    rewrite (Z.min_l c (Z.of_nat (length before) - s)) by lia.
    rewrite (Z.min_l c) by lia.
    rewrite take_app_le by lia. rewrite <- app_assoc. simpl. do 2 f_equal.
    rewrite drop_app_le by lia. reflexivity.
Qed.

(** X1: reading a file into lines and joining them back gives the same
    text, so a quick fix that carries no text edit is applied
    successfully and rewrites the file with exactly its previous content. *)
Theorem fix_without_edits_rewrites_same_content :
  (forall s, JS.join_lines (JS.split_lines s) = s)
  /\ (forall filePath quickFix w content,
         files w !! filePath = Some content ->
         filePath ∉ unwritable w ->
         fixTextEdits quickFix = [] ->
         exists w',
           applyFixToFile filePath (Some quickFix) w
           = (inr (JS.str_or (message quickFix) "Applied automated fix"), w')
           /\ files w' = files w
           /\ trace w' = trace w ++ [WriteFile filePath content]).
Proof.
  split; [apply join_split|].
  intros filePath quickFix w content Hfile Hwritable Hnone.
  rewrite applyFixToFile_cases, Hfile, (applyQuickFix_no_text_edits _ _ Hnone).
  rewrite bool_decide_eq_false_2 by exact Hwritable.
  rewrite join_split. eexists. split; [reflexivity|]. simpl.
  split; [now apply insert_id | reflexivity].
Qed.

Lemma fix_without_edits_rewrites_same_content_witness :
  let w := Sample.disk "var a = 1;" in
  exists w',
    applyFixToFile Sample.path (Some (Sample.bareFix "Remove unused variable")) w
    = (inr "Remove unused variable", w')
    /\ files w' = files w
    /\ trace w' = [WriteFile Sample.path "var a = 1;"].
Proof.
  intros w.
  exact (proj2 fix_without_edits_rewrites_same_content Sample.path
           (Sample.bareFix "Remove unused variable") w "var a = 1;"
           ltac:(vm_compute; reflexivity) ltac:(vm_compute; set_solver) eq_refl).
Defined.

(** X2: every successful text edit leaves the buffer as the lines before
    its start line, one merged line, and the lines after its range: the
    lines above the start line are never touched, and the buffer keeps its
    length for a same-line edit and loses [endLine - startLine] lines for a
    forward multi-line edit. *)
Theorem edit_result_shape (lines : list string) (edit : TextEdit) (lines' : list string) :
  applyTextEdit lines edit = inr lines' ->
  lines' = take (Z.to_nat (editStartLine edit)) lines
           ++ mergedLine lines edit :: drop (resumeAt edit) lines
  /\ take (Z.to_nat (editStartLine edit)) lines'
     = take (Z.to_nat (editStartLine edit)) lines
  /\ (editStartLine edit <= editEndLine edit ->
      Z.of_nat (length lines')
      = Z.of_nat (length lines) - (editEndLine edit - editStartLine edit)).
Proof.
  intros Happly.
  destruct (applyTextEdit_shape _ _ _ Happly) as (Hs & Hlt & Hshape).
  split; [exact Hshape|]. split; [now apply applyTextEdit_prefix|].
  intros Hle. rewrite Hshape, length_app, length_take. simpl. rewrite length_drop.
  unfold resumeAt. rewrite (proj2 (Z.leb_le _ _) Hle).
  assert (Z.to_nat (editEndLine edit) < length lines)%nat; [|lia].
  unfold applyTextEdit, lineAt in Happly.
  destruct (Z.eqb_spec (editStartLine edit) (editEndLine edit)) as [<-|Hne]; [exact Hlt|].
  destruct (JS.index lines (editStartLine edit)); [|discriminate].
  destruct (JS.index lines (editEndLine edit)) eqn:Hlast; [|discriminate].
  now apply index_Some in Hlast.
Qed.

Lemma edit_result_shape_witness :
  take 1 ["function test() {"; "  const x = 1;"; "}"] = take 1 ["function test() {"; "  var x = 1;"; "}"]
  /\ Z.of_nat (length ["function test() {"; "  const x = 1;"; "}"]) = 3 - (1 - 1).
Proof.
  pose proof (edit_result_shape ["function test() {"; "  var x = 1;"; "}"]
                (Sample.replace 2 2 2 5 "const")
                ["function test() {"; "  const x = 1;"; "}"] eq_refl) as (_ & Hprefix & Hlen).
  split; [exact Hprefix | exact (Hlen ltac:(vm_compute; discriminate))].
Defined.

(** X3: an edit whose end line lies before its start line deletes nothing:
    when both lines exist, the merged line is inserted in front of the
    start line and the buffer grows by one line. *)
Theorem inverted_range_inserts_a_line
        (lines : list string) (edit : TextEdit) (first last : string) :
  editEndLine edit < editStartLine edit ->
  JS.index lines (editStartLine edit) = Some first ->
  JS.index lines (editEndLine edit) = Some last ->
  applyTextEdit lines edit
  = inr (take (Z.to_nat (editStartLine edit)) lines
         ++ (JS.str_take (Z.to_nat (editStartCol edit)) first +:+ editNewText edit
             +:+ JS.str_drop (Z.to_nat (editEndCol lines edit)) last)
         :: drop (Z.to_nat (editStartLine edit)) lines)
  /\ forall lines', applyTextEdit lines edit = inr lines' ->
                    length lines' = S (length lines).
Proof.
  intros Hinv Hfirst Hlast.
  destruct (index_Some _ _ _ Hfirst) as (Hs & _ & Hlt).
  assert (Happly : applyTextEdit lines edit
                   = inr (take (Z.to_nat (editStartLine edit)) lines
                          ++ (JS.str_take (Z.to_nat (editStartCol edit)) first
                              +:+ editNewText edit
                              +:+ JS.str_drop (Z.to_nat (editEndCol lines edit)) last)
                          :: drop (Z.to_nat (editStartLine edit)) lines)).
  { unfold applyTextEdit, lineAt. rewrite Hfirst, Hlast.
    destruct (Z.eqb_spec (editStartLine edit) (editEndLine edit)); [lia|].
    rewrite splice_insert by lia.
    now rewrite substring_prefix, substring_suffix, str_app_assoc. }
  split; [exact Happly|].
  intros lines' Heq. rewrite Happly in Heq. injection Heq as <-.
  rewrite length_app, length_take. simpl. rewrite length_drop. lia.
Qed.

Lemma inverted_range_inserts_a_line_witness :
  applyTextEdit ["a"; "b"; "c"] (Sample.replace 3 1 2 1 "X") = inr ["a"; "b"; "cX"; "c"].
Proof.
  exact (proj1 (inverted_range_inserts_a_line ["a"; "b"; "c"] (Sample.replace 3 1 2 1 "X")
                  "c" "b" ltac:(vm_compute; reflexivity) eq_refl eq_refl)).
Defined.

(** X4: an edit never looks at or changes the lines after its range: when
    its start and end lines lie within a prefix of the buffer, the result
    is the edit applied to that prefix, followed by the untouched rest. *)
Theorem edit_leaves_later_lines (before after : list string) (edit : TextEdit) :
  0 <= editStartLine edit < Z.of_nat (length before) ->
  0 <= editEndLine edit < Z.of_nat (length before) ->
  exists before',
    applyTextEdit before edit = inr before'
    /\ applyTextEdit (before ++ after) edit = inr (before' ++ after).
Proof. apply applyTextEdit_frame. Qed.

Lemma edit_leaves_later_lines_witness :
  exists before',
    applyTextEdit ["  var a = 1;"] (Sample.replace 1 2 1 5 "const") = inr before'
    /\ applyTextEdit (["  var a = 1;"] ++ ["  var b = 2;"; "}"]) (Sample.replace 1 2 1 5 "const")
       = inr (before' ++ ["  var b = 2;"; "}"]).
Proof.
  exact (edit_leaves_later_lines ["  var a = 1;"] ["  var b = 2;"; "}"]
           (Sample.replace 1 2 1 5 "const")
           ltac:(vm_compute; split; [discriminate | reflexivity])
           ltac:(vm_compute; split; [discriminate | reflexivity])).
Defined.

(** X5: why edits are applied from the bottom up: after an edit has been
    applied, an edit lying wholly above its start line still finds every
    line it refers to as in the original buffer; it acts on the lines
    above exactly as it would have on the original, and what the first
    edit produced is carried below unchanged. *)
Theorem lower_edit_unaffected_by_higher
        (lines : list string) (lower upper : TextEdit) (afterUpper : list string) :
  applyTextEdit lines upper = inr afterUpper ->
  0 <= editStartLine lower < editStartLine upper ->
  0 <= editEndLine lower < editStartLine upper ->
  let top := Z.to_nat (editStartLine upper) in
  exists above',
    applyTextEdit (take top lines) lower = inr above'
    /\ applyTextEdit lines lower = inr (above' ++ drop top lines)
    /\ applyTextEdit afterUpper lower = inr (above' ++ drop top afterUpper)
    /\ drop top afterUpper = mergedLine lines upper :: drop (resumeAt upper) lines.
Proof.
  intros Hupper Hs He top.
  destruct (applyTextEdit_shape _ _ _ Hupper) as (Hs' & Hlt & Hshape).
  assert (Hlen : length (take top lines) = top) by (rewrite length_take; unfold top; lia).
  destruct (applyTextEdit_frame (take top lines) (drop top lines) lower) as (above' & Habove & Hall);
    [rewrite Hlen; unfold top; lia .. |].
  exists above'. split; [exact Habove|].
  rewrite take_drop in Hall. split; [exact Hall|].
  assert (Hdrop : drop top afterUpper = mergedLine lines upper :: drop (resumeAt upper) lines).
  { rewrite Hshape. fold top. rewrite drop_app_length'; [reflexivity | now rewrite Hlen]. }
  split; [|exact Hdrop].
  destruct (applyTextEdit_frame (take top lines) (drop top afterUpper) lower)
    as (above'' & Habove' & Hall'); [rewrite Hlen; unfold top; lia .. |].
  rewrite Habove in Habove'. injection Habove' as <-.
  pose proof (applyTextEdit_prefix _ _ _ Hupper) as Hprefix. fold top in Hprefix.
  rewrite <- Hprefix in Hall'. now rewrite take_drop in Hall'.
Qed.

Lemma lower_edit_unaffected_by_higher_witness :
  let lines := ["function f() {"; "  var a = 1;"; "  if (a)"; "    g();"; "}"] in
  exists above',
    applyTextEdit (take 2 lines) (Sample.replace 2 2 2 5 "const") = inr above'
    /\ applyTextEdit ["function f() {"; "  var a = 1;"; "  if (a) { g(); }"; "}"]
                     (Sample.replace 2 2 2 5 "const")
       = inr (above' ++ ["  if (a) { g(); }"; "}"]).
Proof.
  intros lines.
  destruct (lower_edit_unaffected_by_higher lines (Sample.replace 2 2 2 5 "const")
              (Sample.replace 3 2 4 8 "if (a) { g(); }")
              ["function f() {"; "  var a = 1;"; "  if (a) { g(); }"; "}"]
              eq_refl
              ltac:(vm_compute; split; [discriminate | reflexivity])
              ltac:(vm_compute; split; [discriminate | reflexivity]))
    as (above' & Habove & _ & Hafter & _).
  exists above'. split; [exact Habove | exact Hafter].
Defined.

(** X6: a text edit fails exactly when its start line is outside the
    buffer or, for an edit spanning lines, its end line is; the failure is
    always the [TypeError] of calling [substring] on [undefined], and
    columns, however large or negative, never make an edit fail. *)
Theorem edit_fails_iff_line_missing (lines : list string) (edit : TextEdit) :
  let outside i := i < 0 \/ Z.of_nat (length lines) <= i in
  ((exists err, applyTextEdit lines edit = inl err)
   <-> outside (editStartLine edit)
       \/ (editStartLine edit <> editEndLine edit /\ outside (editEndLine edit)))
  /\ forall err, applyTextEdit lines edit = inl err ->
                 err = JS.TypeError "Cannot read properties of undefined (reading 'substring')".
Proof.
  intros outside. split; [|intros err H; now apply applyTextEdit_error in H].
  unfold outside. rewrite <- !index_None. unfold applyTextEdit, lineAt.
  destruct (Z.eqb_spec (editStartLine edit) (editEndLine edit)) as [Heq|Hne].
  - destruct (JS.index lines (editStartLine edit)).
    + split; [intros [err H]; discriminate | intros [H|[H _]]; congruence].
    + split; eauto.
  - destruct (JS.index lines (editStartLine edit)); [|split; eauto].
    destruct (JS.index lines (editEndLine edit)).
    + split; [intros [err H]; discriminate | intros [H|[_ H]]; congruence].
    + split; eauto.
Qed.

(** X7: within one file edit the text edits are applied in a stable
    descending order of their start line (a missing start line counting as
    0): the order is a rearrangement of the given edits, start lines never
    increase along it, and edits on the same line keep their given order,
    whatever their columns. *)
Theorem text_edits_sorted_by_line_only (edits : list TextEdit) :
  let key e := JS.num_or (range e ≫= r_startLine) 0 in
  Permutation (JS.sort compareEdits edits) edits
  /\ StronglySorted (fun a b => key b <= key a) (JS.sort compareEdits edits)
  /\ forall k, List.filter (fun e => key e =? k) (JS.sort compareEdits edits)
               = List.filter (fun e => key e =? k) edits.
Proof.
  intros key. split; [apply (sort_Permutation key)|].
  split; [apply (sort_sorted key) | intros k; apply (sort_stable key)].
Qed.

Lemma edit_fails_iff_line_missing_witness :
  applyTextEdit ["a"; "b"] (Sample.replace 7 0 7 1 "x")
  = inl (JS.TypeError "Cannot read properties of undefined (reading 'substring')").
Proof.
  destruct (applyTextEdit ["a"; "b"] (Sample.replace 7 0 7 1 "x")) as [err|lines'] eqn:Hedit;
    [|discriminate].
  f_equal.
  exact (proj2 (edit_fails_iff_line_missing ["a"; "b"] (Sample.replace 7 0 7 1 "x")) err Hedit).
Defined.

(** ** More on the Scope Resolver *)

Lemma mapGet_None m key : mapGet m key = None <-> key ∉ map fst m.
Proof.
  induction m as [|[k v] m IH]; simpl.
  - split; [intros _; apply not_elem_of_nil | reflexivity].
  - rewrite not_elem_of_cons. destruct (String.eqb_spec k key) as [->|Hne].
    + split; [discriminate | intros [? _]; congruence].
    + rewrite IH. split; [intros ?; split; congruence | intros [_ ?]; assumption].
Qed.

Lemma mapGet_elem_of m key value :
  NoDup (map fst m) -> (mapGet m key = Some value <-> (key, value) ∈ m).
Proof.
  induction m as [|[k v] m IH]; simpl; intros Hnd.
  - split; [discriminate | intros H; inversion H].
  - apply NoDup_cons in Hnd as [Hk Hnd]. rewrite elem_of_cons.
    destruct (String.eqb_spec k key) as [->|Hne].
    + split; [intros [= ->]; now left|].
      intros [[= ->]|Hin]; [reflexivity|].
      exfalso. apply Hk. apply list_elem_of_fmap. now exists (key, value).
    + rewrite (IH Hnd). split; [auto | intros [[= ? ?]|?]; congruence].
Qed.

Lemma mapSet_fresh m key value : key ∉ map fst m -> mapSet m key value = m ++ [(key, value)].
Proof.
  induction m as [|[k v] m IH]; simpl; intros Hk; [reflexivity|].
  apply not_elem_of_cons in Hk as [Hne Hk].
  destruct (String.eqb_spec k key); [congruence|]. now rewrite IH.
Qed.

(** A scope map as the resolver builds it from an empty one: no root twice,
    every root under the id computed from it. *)
Lemma getOrCreateScope_grown filePath w :
  NoDup (map fst (scopeMap w)) ->
  (forall root scopeId, (root, scopeId) ∈ scopeMap w -> scopeId = scopeIdFor root) ->
  let root := NodePath.dirname filePath in
  fst (getOrCreateScope filePath w) = inr (scopeIdFor root)
  /\ scopeMap (snd (getOrCreateScope filePath w))
     = if bool_decide (root ∈ map fst (scopeMap w)) then scopeMap w
       else scopeMap w ++ [(root, scopeIdFor root)].
Proof.
  intros Hnd Hids root. unfold getOrCreateScope. fold root.
  destruct (mapGet (scopeMap w) root) as [scopeId|] eqn:Hget.
  - pose proof (proj1 (mapGet_elem_of _ _ _ Hnd) Hget) as Hin.
    rewrite (Hids _ _ Hin). cbn [JS.str_truthy scopeIdFor]. simpl.
    rewrite bool_decide_eq_true_2; [auto|].
    apply list_elem_of_fmap. now exists (root, scopeId).
  - apply mapGet_None in Hget. simpl.
    rewrite bool_decide_eq_false_2 by exact Hget.
    now rewrite mapSet_fresh.
Qed.

Lemma resolveAll_grown filePaths : forall w,
  NoDup (map fst (scopeMap w)) ->
  (forall root scopeId, (root, scopeId) ∈ scopeMap w -> scopeId = scopeIdFor root) ->
  NoDup (map fst (scopeMap (resolveAll filePaths w)))
  /\ (forall root scopeId,
         (root, scopeId) ∈ scopeMap (resolveAll filePaths w)
         <-> (root, scopeId) ∈ scopeMap w
             \/ (root ∈ map NodePath.dirname filePaths /\ scopeId = scopeIdFor root)).
Proof.
  induction filePaths as [|p ps IH]; intros w Hnd Hids; simpl.
  - split; [exact Hnd|]. intros root scopeId. split; [auto | intros [?|[H _]]; [auto|inversion H]].
  - destruct (getOrCreateScope_grown p w Hnd Hids) as [_ Hmap].
    set (w1 := snd (getOrCreateScope p w)) in *.
    assert (Hnd1 : NoDup (map fst (scopeMap w1))).
    { rewrite Hmap. case_bool_decide as Hin; [exact Hnd|].
      rewrite map_app. simpl. apply NoDup_app. split; [exact Hnd|]. split.
      - intros r Hr Hr'. apply list_elem_of_singleton in Hr'. congruence.
      - apply NoDup_singleton. }
    assert (Hin1 : forall root scopeId,
               (root, scopeId) ∈ scopeMap w1
               <-> (root, scopeId) ∈ scopeMap w
                   \/ (root = NodePath.dirname p /\ scopeId = scopeIdFor root)).
    { intros root scopeId. rewrite Hmap. case_bool_decide as Hin.
      - split; [auto|]. intros [?|[-> ->]]; [assumption|].
        apply list_elem_of_fmap in Hin as [[r id] [Hr Hrid]]. simpl in Hr. subst r.
        now rewrite <- (Hids _ _ Hrid).
      - rewrite elem_of_app, list_elem_of_singleton.
        split; (intros [?|H]; [now left | right]); [now injection H as -> -> | now destruct H as [-> ->]]. }
    assert (Hids1 : forall root scopeId, (root, scopeId) ∈ scopeMap w1 -> scopeId = scopeIdFor root).
    { intros root scopeId Hin. apply Hin1 in Hin as [?|[_ ?]]; auto. }
    destruct (IH w1 Hnd1 Hids1) as [Hnd' Hin']. split; [exact Hnd'|].
    intros root scopeId. rewrite Hin', Hin1, elem_of_cons. intuition (subst; auto).
Qed.

(** X8: from an empty scope map, whatever paths have been resolved so far,
    the map holds each project root seen exactly once, under the id
    computed from that root alone, and the id returned for any path is the
    one computed from its parent directory: scope ids do not depend on the
    history of the process. *)
Theorem scope_ids_independent_of_history (w : World) (filePaths : list string) :
  scopeMap w = [] ->
  let w' := resolveAll filePaths w in
  NoDup (map fst (scopeMap w'))
  /\ (forall root scopeId,
         (root, scopeId) ∈ scopeMap w'
         <-> root ∈ map NodePath.dirname filePaths /\ scopeId = scopeIdFor root)
  /\ forall filePath,
       fst (getOrCreateScope filePath w') = inr (scopeIdFor (NodePath.dirname filePath)).
Proof.
  intros Hempty w'.
  destruct (resolveAll_grown filePaths w) as [Hnd Hin].
  { rewrite Hempty. constructor. }
  { rewrite Hempty. intros ? ? H. inversion H. }
  split; [exact Hnd|]. split.
  - intros root scopeId. unfold w'. rewrite Hin, Hempty.
    split; [intros [H|?]; [inversion H | assumption] | auto].
  - intros filePath. apply getOrCreateScope_grown; [exact Hnd|].
    intros root scopeId Hrs. apply Hin in Hrs as [Hrs|[_ ?]]; [|assumption].
    rewrite Hempty in Hrs. inversion Hrs.
Qed.

Lemma scope_ids_independent_of_history_witness :
  let w' := resolveAll ["/work/a.js"; "/lib/b.ts"; "/work/c.js"] (Sample.disk "") in
  map fst (scopeMap w') = ["/work"; "/lib"]
  /\ fst (getOrCreateScope "/lib/z.py" w') = inr (scopeIdFor "/lib").
Proof.
  intros w'. split; [vm_compute; reflexivity|].
  exact (proj2 (proj2 (scope_ids_independent_of_history (Sample.disk "")
                         ["/work/a.js"; "/lib/b.ts"; "/work/c.js"] eq_refl)) "/lib/z.py").
Defined.

Lemma rootOfScope_first m configScopeId root :
  rootOfScope m configScopeId = Some root
  <-> exists before after,
        m = before ++ (root, configScopeId) :: after
        /\ configScopeId ∉ map snd before.
Proof.
  revert root; induction m as [|[r id] m IH]; intros root; simpl.
  - split; [discriminate | intros (before & after & H & _); now destruct before].
  - destruct (String.eqb_spec id configScopeId) as [->|Hne].
    + split.
      * intros [= ->]. exists [], m. split; [reflexivity | apply not_elem_of_nil].
      * intros ([|[r' id'] before] & after & Heq & Hnot); simpl in *.
        -- now injection Heq as -> _.
        -- injection Heq as _ <- _. exfalso. apply Hnot. apply list_elem_of_here.
    + rewrite IH. split.
      * intros (before & after & -> & Hnot). exists ((r, id) :: before), after.
        split; [reflexivity|]. simpl. rewrite not_elem_of_cons. auto.
      * intros ([|[r' id'] before] & after & Heq & Hnot); simpl in *.
        -- injection Heq as _ ?. congruence.
        -- injection Heq as _ _ ->. exists before, after. split; [reflexivity|].
           now apply not_elem_of_cons in Hnot as [_ ?].
Qed.

(** X9: the notifier's reverse lookup returns the first root, in order of
    creation, stored under the scope id, and nothing when no root is.  A
    scope id being 32 bits of a hash, two roots can share one:
    /home/dev/project8106/src and /home/dev/project29159/src do, and once
    both are resolved the lookup answers the first of them for either. *)
Theorem reverse_lookup_finds_first_root :
  (forall m configScopeId root,
      rootOfScope m configScopeId = Some root
      <-> exists before after,
            m = before ++ (root, configScopeId) :: after
            /\ configScopeId ∉ map snd before)
  /\ (forall m configScopeId,
         rootOfScope m configScopeId = None <-> configScopeId ∉ map snd m)
  /\ (let first := "/home/dev/project8106/src/index.js" in
      let second := "/home/dev/project29159/src/index.js" in
      let w := resolveAll [first; second] (Sample.disk "") in
      NodePath.dirname first <> NodePath.dirname second
      /\ fst (getOrCreateScope first w) = fst (getOrCreateScope second w)
      /\ fst (getOrCreateScope second w) = inr "scope-aaffafc6"
      /\ rootOfScope (scopeMap w) "scope-aaffafc6" = Some (NodePath.dirname first)).
Proof.
  split; [apply rootOfScope_first|]. split.
  - intros m configScopeId. induction m as [|[r id] m IH]; simpl.
    + split; [intros _; apply not_elem_of_nil | reflexivity].
    + rewrite not_elem_of_cons. destruct (String.eqb_spec id configScopeId) as [->|Hne].
      * split; [discriminate | intros [? _]; congruence].
      * rewrite IH. split; [intros ?; split; congruence | intros [_ ?]; assumption].
  - vm_compute. repeat split; congruence.
Qed.

Lemma reverse_lookup_finds_first_root_witness :
  exists before after,
    [("/work", "scope-1e0bb3be"); ("/lib", "scope-x")]
    = before ++ ("/lib", "scope-x") :: after
    /\ "scope-x" ∉ map snd before.
Proof.
  exact (proj1 (proj1 reverse_lookup_finds_first_root
                  [("/work", "scope-1e0bb3be"); ("/lib", "scope-x")] "scope-x" "/lib")
               ltac:(vm_compute; reflexivity)).
Defined.

(** ** More on the tools *)


Lemma ensureSloopBridge_sets env w w' :
  ensureSloopBridge env w = (inr tt, w') -> sloopBridge w' = true.
Proof.
  unfold ensureSloopBridge. destruct (sloopBridge w) eqn:Hb; [now intros [= <-]|].
  destruct (pluginsInstalled env); simpl; [|discriminate].
  destruct (connectError env); [discriminate|]. now intros [= <-].
Qed.




Lemma writes_app tr1 tr2 : writes (tr1 ++ tr2) = writes tr1 ++ writes tr2.
Proof. apply List.filter_app. Qed.

Lemma writes_WriteFile filePath contents :
  writes (map (WriteFile filePath) contents) = map (WriteFile filePath) contents.
Proof. induction contents as [|c cs IH]; simpl; [reflexivity | now rewrite IH]. Qed.

(** What the loop writes: one write of the target file per applied fix, in
    order, and nothing else. *)
Lemma applyLoop_writes filePath issues :
  forall applied failed w applied' failed' w',
    applyLoop filePath issues applied failed w = (inr (applied', failed'), w') ->
    exists contents,
      trace w' = trace w ++ map (WriteFile filePath) contents
      /\ length applied' = (length applied + length contents)%nat
      /\ (forall path, path <> filePath -> files w' !! path = files w !! path)
      /\ files w' !! filePath
         = match last contents with
           | Some content => Some content
           | None => files w !! filePath
           end.
Proof.
  induction issues as [|issue rest IH]; intros applied failed w applied' failed' w'.
  - simpl. intros [= <- <- <-]. exists []. simpl. rewrite app_nil_r. repeat split; auto; lia.
  - destruct (quickFixes issue) as [fixes|] eqn:Hfixes;
      [|simpl; rewrite Hfixes; discriminate].
    rewrite (applyLoop_step _ _ _ _ _ _ _ Hfixes), applyFixToFile_cases.
    destruct (files w !! filePath) as [content|] eqn:Hfile;
      [|intros Hrun; apply IH in Hrun as (cs & Ht & Hl & Ho & Hf); exists cs;
        simpl in *; now rewrite Hf, Hfile].
    destruct (head fixes) as [fix1|];
      [|intros Hrun; apply IH in Hrun as (cs & Ht & Hl & Ho & Hf); exists cs;
        simpl in *; now rewrite Hf, Hfile].
    destruct (applyQuickFix _ fix1) as [e|lines'];
      [intros Hrun; apply IH in Hrun as (cs & Ht & Hl & Ho & Hf); exists cs;
       simpl in *; now rewrite Hf, Hfile|].
    destruct (bool_decide _);
      [intros Hrun; apply IH in Hrun as (cs & Ht & Hl & Ho & Hf); exists cs;
       simpl in *; now rewrite Hf, Hfile|].
    intros Hrun. apply IH in Hrun as (cs & Ht & Hl & Ho & Hf). simpl in *.
    exists (JS.join_lines lines' :: cs). simpl. split; [now rewrite Ht, <- app_assoc|].
    split; [rewrite Hl, length_app; simpl; lia|]. split.
    + intros path Hne. rewrite Ho by exact Hne. now apply lookup_insert_ne.
    + rewrite Hf. destruct cs as [|c cs]; [simpl; apply lookup_insert_eq|].
      rewrite last_cons_cons.
      destruct (last (c :: cs)) eqn:Hlast; [reflexivity|].
      now apply last_None in Hlast.
Qed.

(** X11: a completed batch has written the target file once for each fix
    it reports as applied and has written nothing else; every other file
    is as before, and the target file holds what the last of these writes
    put there (its old content when no fix was applied). *)
Theorem batch_writes_once_per_applied_fix
        (env : Env) (filePath : string) (w : World) (report : ApplyAllResult) (w' : World) :
  handleApplyAllQuickFixes env filePath w = (inr report, w') ->
  exists contents,
    writes (trace w') = writes (trace w) ++ map (WriteFile filePath) contents
    /\ length contents = appliedCount report
    /\ (forall path, path <> filePath -> files w' !! path = files w !! path)
    /\ files w' !! filePath
       = match last contents with
         | Some content => Some content
         | None => files w !! filePath
         end.
Proof.
  rewrite handleApplyAllQuickFixes_cases.
  destruct (files w !! filePath) as [content|] eqn:Hfile; [|discriminate].
  destruct (ensureSloopBridge env w) as [[e|[]] w1] eqn:Hensure; [discriminate|].
  destruct (getOrCreateScope filePath w1) as [[e|scopeId] w2] eqn:Hscope; [discriminate|].
  destruct (analyzeFilesAndTrack env scopeId [filePath] w2) as [[e|rawIssues] w3] eqn:Hfirst;
    [discriminate|].
  pose proof (quiet_trans _ _ _
                (quiet_trans _ _ _ (ensureSloopBridge_quiet _ _ _ _ Hensure)
                             (getOrCreateScope_quiet _ _ _ _ Hscope))
                (analyzeFilesAndTrack_quiet _ _ _ _ _ _ Hfirst)) as (Hf3 & _ & Hw3).
  destruct (issuesWithQuickFixes rawIssues).
  { intros [= <- <-]. exists []. simpl. rewrite app_nil_r, Hf3, Hfile.
    repeat split; auto. }
  destruct (applyLoop filePath (plan rawIssues) [] [] w3) as [[e|[applied failed]] w4] eqn:Hloop;
    [discriminate|].
  destruct (applyLoop_writes _ _ _ _ _ _ _ _ Hloop) as (contents & Ht4 & Hlen & Hother & Hthis).
  destruct (notifyFileSystemChanged_total env filePath scopeId w4)
    as (w5 & Hnotify & (Hf5 & _ & Hw5) & _).
  rewrite Hnotify.
  destruct (analyzeFilesAndTrack env scopeId [filePath] (snd (emit (Sleep 500) w5)))
    as [[e|remaining] w6] eqn:Hsecond; [discriminate|].
  apply analyzeFilesAndTrack_quiet in Hsecond as (Hf6 & _ & Hw6).
  intros [= <- <-]. exists contents. simpl in *.
  rewrite Hw6, writes_snoc, Hw5, Ht4, writes_app, writes_WriteFile, Hw3 by reflexivity.
  rewrite Hf6, Hf5, <- Hf3. split; [reflexivity|]. split; [lia|]. split; [assumption|].
  now rewrite Hthis, Hf3, Hfile.
Qed.

Lemma batch_writes_once_per_applied_fix_witness :
  let run := handleApplyAllQuickFixes (Sample.backend Sample.fiveIssues) Sample.path
               (Sample.disk (JS.join_lines Sample.sourceLines)) in
  exists contents,
    writes (trace (snd run)) = map (WriteFile Sample.path) contents
    /\ length contents = 4%nat
    /\ last contents = Some (JS.join_lines Sample.fixedLines).
Proof.
  intros run.
  destruct (fst run) as [e|report] eqn:Hfst; [vm_compute in Hfst; discriminate|].
  assert (Hcount : appliedCount report = 4%nat)
    by (vm_compute in Hfst; injection Hfst as <-; reflexivity).
  assert (Hrun : run = (inr report, snd run)) by (rewrite <- Hfst; now destruct run).
  destruct (batch_writes_once_per_applied_fix _ _ _ _ _ Hrun)
    as (contents & Hwrites & Hlen & _ & Hfile).
  exists contents. split; [exact Hwrites|]. split; [congruence|].
  destruct (last contents) as [c|] eqn:Hlast.
  - transitivity (files (snd run) !! Sample.path);
      [symmetry; exact Hfile | vm_compute; reflexivity].
  - apply last_None in Hlast. subst contents. rewrite Hcount in Hlen. discriminate Hlen.
Defined.

Lemma sublist_Forall' {A} (P : A -> Prop) l k : sublist l k -> Forall P k -> Forall P l.
Proof.
  induction 1; intros Hk; [constructor | |].
  - apply Forall_cons in Hk as [? ?]. constructor; auto.
  - apply Forall_cons in Hk as [_ ?]. auto.
Qed.

Lemma sublist_StronglySorted' {A} (R : A -> A -> Prop) l k :
  sublist l k -> StronglySorted R k -> StronglySorted R l.
Proof.
  induction 1; intros Hk; [constructor | |].
  - apply StronglySorted_inv in Hk as [Hs Hall]. constructor; [auto|].
    eapply sublist_Forall'; eauto.
  - apply StronglySorted_inv in Hk as [Hs _]. auto.
Qed.

Lemma StronglySorted_map_key {A} (key : A -> Z) l :
  StronglySorted (fun a b => key b <= key a) l ->
  StronglySorted (fun a b => b <= a) (map key l).
Proof.
  induction 1 as [|x l Hs IH Hall]; simpl; constructor; [exact IH|].
  now apply Forall_fmap.
Qed.

(** The loop files each issue under exactly one of its two lists, keeping
    the order of the issues within each. *)
Lemma applyLoop_accounts filePath issues :
  forall applied failed w applied' failed' w',
    applyLoop filePath issues applied failed w = (inr (applied', failed'), w') ->
    exists applied1 failed1,
      applied' = applied ++ applied1 /\ failed' = failed ++ failed1
      /\ Permutation (map appliedKey applied1 ++ map failedKey failed1) (map issueKey issues)
      /\ sublist (map af_line applied1) (map issueLine issues)
      /\ sublist (map ff_line failed1) (map issueLine issues).
Proof.
  induction issues as [|issue rest IH]; intros applied failed w applied' failed' w'.
  - simpl. intros [= <- <- <-]. exists [], []. rewrite !app_nil_r. repeat split; constructor.
  - destruct (quickFixes issue) as [fixes|] eqn:Hfixes;
      [|simpl; rewrite Hfixes; discriminate].
    rewrite (applyLoop_step _ _ _ _ _ _ _ Hfixes).
    destruct (applyFixToFile filePath (head fixes) w) as [[err|msg] w1]; intros Hrun;
      apply IH in Hrun as (a1 & f1 & -> & -> & Hperm & Hsa & Hsf).
    + eexists a1, (_ :: f1). rewrite <- app_assoc. simpl.
      split; [reflexivity|]. split; [reflexivity|]. split; [|split].
      * rewrite <- Hperm. symmetry. apply Permutation_middle.
      * now constructor.
      * now constructor.
    + eexists (_ :: a1), f1. rewrite <- app_assoc. simpl.
      split; [reflexivity|]. split; [reflexivity|]. split; [|split].
      * now constructor.
      * now constructor.
      * now constructor.
Qed.

(** X12: the applied and the failed records of a batch, taken together,
    name each planned issue exactly once by its line and rule, and each of
    the two lists runs from the highest line to the lowest. *)
Theorem batch_accounts_for_every_issue
        (filePath : string) (rawIssues : list Issue) (w : World)
        (applied : list AppliedFix) (failed : list FailedFix) (w' : World) :
  applyLoop filePath (plan rawIssues) [] [] w = (inr (applied, failed), w') ->
  Permutation (map appliedKey applied ++ map failedKey failed) (map issueKey (plan rawIssues))
  /\ StronglySorted (fun a b => b <= a) (map af_line applied)
  /\ StronglySorted (fun a b => b <= a) (map ff_line failed).
Proof.
  intros Hrun.
  apply applyLoop_accounts in Hrun as (a1 & f1 & -> & -> & Hperm & Hsa & Hsf).
  simpl. split; [exact Hperm|].
  assert (Hsorted : StronglySorted (fun a b => b <= a) (map issueLine (plan rawIssues))).
  { apply StronglySorted_map_key.
    exact (sort_sorted issueLine (issuesWithQuickFixes rawIssues)). }
  split; eapply sublist_StronglySorted'; eauto.
Qed.

Lemma batch_accounts_for_every_issue_witness :
  let run := applyLoop Sample.path (plan Sample.fiveIssues) [] []
               (Sample.disk (JS.join_lines Sample.sourceLines)) in
  exists applied failed,
    fst run = inr (applied, failed)
    /\ Permutation (map appliedKey applied ++ map failedKey failed)
                   (map issueKey (plan Sample.fiveIssues))
    /\ map af_line applied = [11; 5; 4; 3].
Proof.
  intros run.
  destruct (fst run) as [e|[applied failed]] eqn:Hfst; [vm_compute in Hfst; discriminate|].
  assert (Hrun : run = (inr (applied, failed), snd run)) by (rewrite <- Hfst; now destruct run).
  exists applied, failed. split; [reflexivity|].
  split; [exact (proj1 (batch_accounts_for_every_issue _ _ _ _ _ _ Hrun))|].
  vm_compute in Hfst. now injection Hfst as <- _.
Defined.

(** X13: with the bridge up, the file on disk and a backend that takes
    its notifications, the notifier tells the backend that the file is
    open and then sends one changed file whose content is what the disk
    holds at that moment, under the URI [file://] + path; the relative
    path is taken against the first root that carries the scope id and
    against the file's directory when no root does; the disk is left as
    it was. *)
Theorem notification_carries_disk_content
        (env : Env) (filePath configScopeId : string) (w : World) (content : string) :
  sloopBridge w = true ->
  files w !! filePath = Some content ->
  (forall ev, notificationError env ev = None) ->
  exists w' dto,
    notifyFileSystemChanged env filePath configScopeId w = (inr tt, w')
    /\ trace w' = trace w ++ [DidOpenFile configScopeId ("file://" +:+ filePath);
                               DidUpdateFileSystem [] [dto] []]
    /\ files w' = files w
    /\ dto_content dto = content
    /\ dto_fsPath dto = filePath
    /\ dto_uri dto = "file://" +:+ filePath
    /\ dto_configScopeId dto = configScopeId
    /\ dto_detectedLanguage dto = languageToEnum (detectLanguage env filePath)
    /\ match rootOfScope (scopeMap w) configScopeId with
       | Some root =>
           root <> "" -> dto_ideRelativePath dto = relative env root filePath
       | None =>
           dto_ideRelativePath dto = relative env (NodePath.dirname filePath) filePath
       end.
Proof.
  intros Hbridge Hfile Haccepts.
  unfold notifyFileSystemChanged, notifyBody, bind, attempt, sendNotification,
    ensureSloopBridge, readFileSync.
  rewrite Hbridge, Haccepts. cbn [emit files]. rewrite Hfile. cbv beta iota.
  rewrite Haccepts.
  eexists _, _. split; [reflexivity|]. cbn. rewrite <- app_assoc.
  repeat (split; [reflexivity|]).
  destruct (rootOfScope (scopeMap w) configScopeId) as [[|c root]|]; cbn;
    [intros []| |]; reflexivity.
Qed.

Lemma notification_carries_disk_content_witness :
  let w := snd (getOrCreateScope Sample.path
                  (snd (ensureSloopBridge (Sample.backend []) (Sample.disk "let a = 1;")))) in
  exists w' dto,
    notifyFileSystemChanged (Sample.backend []) Sample.path "scope-1e0bb3be" w = (inr tt, w')
    /\ trace w' = trace w ++ [DidOpenFile "scope-1e0bb3be" "file:///work/test-line-numbers.js";
                               DidUpdateFileSystem [] [dto] []]
    /\ dto_content dto = "let a = 1;"
    /\ dto_detectedLanguage dto = "JS".
Proof.
  intros w.
  destruct (notification_carries_disk_content (Sample.backend []) Sample.path
              "scope-1e0bb3be" w "let a = 1;")
    as (w' & dto & Hrun & Htrace & _ & Hcontent & _ & _ & _ & Hlanguage & _);
    [reflexivity | reflexivity | reflexivity |].
  exists w', dto. split; [exact Hrun|]. split; [exact Htrace|]. split; [exact Hcontent|].
  rewrite Hlanguage. reflexivity.
Defined.

(** X14: the stages at which the notifier gives up, bridge up.  When the
    backend refuses [file/didOpenFile], nothing is sent at all; when the
    file cannot be read, [file/didOpenFile] has been sent and no file
    system update follows; when the update itself is refused, likewise.
    Each time the notifier returns normally and leaves the disk as it
    was. *)
Theorem notification_failure_stages
        (env : Env) (filePath configScopeId : string) (w : World) :
  sloopBridge w = true ->
  let opened := DidOpenFile configScopeId ("file://" +:+ filePath) in
  exists w' sent,
    notifyFileSystemChanged env filePath configScopeId w = (inr tt, w')
    /\ trace w' = trace w ++ sent
    /\ files w' = files w
    /\ match notificationError env opened, files w !! filePath with
       | Some _, _ => sent = []
       | None, None => sent = [opened]
       | None, Some content =>
           exists dto,
             dto_content dto = content
             /\ match notificationError env (DidUpdateFileSystem [] [dto] []) with
                | Some _ => sent = [opened]
                | None => sent = [opened; DidUpdateFileSystem [] [dto] []]
                end
       end.
Proof.
  intros Hbridge opened.
  unfold notifyFileSystemChanged, notifyBody, bind, attempt, sendNotification,
    ensureSloopBridge, readFileSync.
  rewrite Hbridge. fold opened.
  destruct (notificationError env opened) as [e|] eqn:Hopen.
  { eexists _, []. cbn. rewrite app_nil_r. repeat split; reflexivity. }
  cbn [emit files].
  destruct (files w !! filePath) as [content|] eqn:Hfile.
  2:{ eexists _, [opened]. cbn. repeat split; reflexivity. }
  match goal with
  | |- context [notificationError env (DidUpdateFileSystem [] [?d] [])] => set (dto := d)
  end.
  destruct (notificationError env (DidUpdateFileSystem [] [dto] [])) as [e|] eqn:Hupdate.
  - eexists _, [opened]. cbn. split; [reflexivity|]. split; [reflexivity|].
    split; [reflexivity|]. exists dto. rewrite Hupdate. split; reflexivity.
  - eexists _, [opened; DidUpdateFileSystem [] [dto] []]. cbn.
    rewrite <- !app_assoc. split; [reflexivity|]. split; [reflexivity|].
    split; [reflexivity|]. exists dto. rewrite Hupdate. split; reflexivity.
Qed.

Lemma notification_failure_stages_witness :
  let w := snd (ensureSloopBridge (Sample.deafBackend []) (Sample.disk "let a = 1;")) in
  exists w',
    notifyFileSystemChanged (Sample.deafBackend []) Sample.path "scope-1e0bb3be" w
    = (inr tt, w')
    /\ trace w' = trace w
    /\ files w' = files w.
Proof.
  intros w.
  destruct (notification_failure_stages (Sample.deafBackend []) Sample.path
              "scope-1e0bb3be" w eq_refl)
    as (w' & sent & Hrun & Htrace & Hfiles & Hstage).
  cbn in Hstage. subst sent.
  exists w'. split; [exact Hrun|]. split; [now rewrite Htrace, app_nil_r | exact Hfiles].
Defined.

Lemma toolCallback_cases {A} (handler : M A) w :
  toolCallback handler w
  = match handler w with
    | (inr answer, w1) => (inr (inr answer), w1)
    | (inl error, w1) =>
        (inr (inl {| errorText := "❌ **Error**: " +:+ shownMessage error; isError := true |}),
         snd (consoleError ("[MCP] Error handling tool call: " +:+ JS.error_message error) w1))
    end.
Proof.
  unfold toolCallback, bind, attempt, handleToolError.
  destruct (handler w) as [[error|answer] w1]; [|reflexivity].
  destruct error; reflexivity.
Qed.

(** X15: the two fix tools never throw.  Whatever their handler throws
    comes back as an answer flagged [isError] whose text is the user
    message of a [SloopError] and the message of any other error; the
    disk and the traffic are left as the handler had them when it threw. *)
Theorem fix_tools_never_throw
        (env : Env) (filePath : string) (line : Z) (rule : string) (w : World) :
  (exists answer w',
      applyQuickFixTool env filePath line rule w = (inr answer, w')
      /\ match handleApplyQuickFix env filePath line rule w with
         | (inr result, w1) => answer = inr result /\ w' = w1
         | (inl error, w1) =>
             answer = inl {| errorText := "❌ **Error**: " +:+ shownMessage error;
                             isError := true |}
             /\ files w' = files w1 /\ trace w' = trace w1
         end)
  /\ (exists answer w',
         applyAllQuickFixesTool env filePath w = (inr answer, w')
         /\ match handleApplyAllQuickFixes env filePath w with
            | (inr report, w1) => answer = inr report /\ w' = w1
            | (inl error, w1) =>
                answer = inl {| errorText := "❌ **Error**: " +:+ shownMessage error;
                                isError := true |}
                /\ files w' = files w1 /\ trace w' = trace w1
            end).
Proof.
  unfold applyQuickFixTool, applyAllQuickFixesTool. rewrite !toolCallback_cases. split.
  - destruct (handleApplyQuickFix env filePath line rule w) as [[error|result] w1];
      eexists _, _; repeat split; reflexivity.
  - destruct (handleApplyAllQuickFixes env filePath w) as [[error|report] w1];
      eexists _, _; repeat split; reflexivity.
Qed.

(** X16: called on a path where no file is, either fix tool answers with
    the same error text naming the path, without contacting the backend,
    creating a scope or touching the disk. *)
Theorem fix_tools_on_missing_file
        (env : Env) (filePath : string) (line : Z) (rule : string) (w : World) :
  files w !! filePath = None ->
  let missing :=
    {| errorText := "❌ **Error**: The file " +:+ filePath
                    +:+ " does not exist. Please check the path and try again.";
       isError := true |} in
  exists w1 w2,
    applyQuickFixTool env filePath line rule w = (inr (inl missing), w1)
    /\ applyAllQuickFixesTool env filePath w = (inr (inl missing), w2)
    /\ files w1 = files w /\ trace w1 = trace w /\ scopeMap w1 = scopeMap w
    /\ sloopBridge w1 = sloopBridge w
    /\ files w2 = files w /\ trace w2 = trace w /\ scopeMap w2 = scopeMap w
    /\ sloopBridge w2 = sloopBridge w.
Proof.
  intros Hfile missing.
  unfold applyQuickFixTool, applyAllQuickFixesTool. rewrite !toolCallback_cases.
  rewrite handleApplyAllQuickFixes_cases, handleApplyQuickFix_cases, Hfile.
  eexists _, _. repeat split; reflexivity.
Qed.

Lemma fix_tools_on_missing_file_witness :
  exists w1 w2,
    applyQuickFixTool (Sample.backend Sample.fiveIssues) "/work/gone.js" 3 "javascript:S3504"
      (Sample.disk "let a = 1;")
    = (inr (inl {| errorText := "❌ **Error**: The file /work/gone.js does not exist. "
                                +:+ "Please check the path and try again.";
                   isError := true |}), w1)
    /\ applyAllQuickFixesTool (Sample.backend Sample.fiveIssues) "/work/gone.js"
         (Sample.disk "let a = 1;")
       = (inr (inl {| errorText := "❌ **Error**: The file /work/gone.js does not exist. "
                                   +:+ "Please check the path and try again.";
                      isError := true |}), w2)
    /\ trace w1 = [] /\ trace w2 = [].
Proof.
  destruct (fix_tools_on_missing_file (Sample.backend Sample.fiveIssues) "/work/gone.js"
              3 "javascript:S3504" (Sample.disk "let a = 1;"))
    as (w1 & w2 & H1 & H2 & _ & Ht1 & _ & _ & _ & Ht2 & _); [reflexivity|].
  exists w1, w2. repeat split; assumption.
Defined.

(** ** Reported issues against the fix tools *)

Lemma num_or_zero x d : JS.num_or x d = 0 -> d = 0.
Proof.
  unfold JS.num_or. destruct x as [v|]; [|auto].
  destruct (Z.eqb_spec v 0); [auto | congruence].
Qed.

Lemma num_or_default x d d' : JS.num_or x d <> d -> JS.num_or x d' = JS.num_or x d.
Proof.
  unfold JS.num_or. destruct x as [v|]; [|congruence].
  destruct (v =? 0); congruence.
Qed.

(** X17: the single-fix tool, called with the line and the rule under
    which an analysis reports an issue, recognises that issue as its
    target exactly when the raw issue has a line (other than 0) and a
    non-empty rule key: an issue without line is reported at line 1 and
    one without rule key under [unknown], and neither is found there. *)
Theorem reported_position_targets_issue (issue : RawIssue) :
  let reported := transformSloopIssue issue in
  isTarget (ai_line reported) (ai_rule reported) (core issue) = true
  <-> issueLine (core issue) <> 0 /\ ruleKey (core issue) <> "".
Proof.
  unfold isTarget, transformSloopIssue, issueLine. cbn [ai_line ai_rule].
  rewrite andb_true_iff, Z.eqb_eq, String.eqb_eq.
  set (range := textRange (core issue) ≫= r_startLine).
  set (start := startLine (core issue)).
  split.
  - intros [Hline Hrule]. split.
    + intros Hzero. rewrite Hzero in Hline. symmetry in Hline.
      apply num_or_zero, num_or_zero in Hline. discriminate.
    + intros Hempty. rewrite Hempty in Hrule. discriminate.
  - intros [Hline Hrule]. split.
    + destruct range as [v|]; cbn [JS.num_or] in *.
      * destruct (v =? 0); [|reflexivity]. symmetry. now apply num_or_default.
      * symmetry. now apply num_or_default.
    + destruct (ruleKey (core issue)); [congruence | reflexivity].
Qed.

(** X18: a reported text edit agrees with the edit the fix tools apply
    on the start line (counted from 1 instead of 0), the start column
    and the text.  On the end line the two agree exactly when the raw
    edit has an end line or starts on the first line: a missing end
    line is reported as line 1, while the fix tools take it to be the
    start line. *)
Theorem reported_edit_against_applied_edit (edit : TextEdit) :
  let reported := reportEdit edit in
  re_startLine reported - 1 = editStartLine edit
  /\ re_startColumn reported = editStartCol edit
  /\ re_newText reported = editNewText edit
  /\ (re_endLine reported - 1 = editEndLine edit
      <-> JS.num_or (range edit ≫= r_endLine) 0 <> 0 \/ editStartLine edit = 0).
Proof.
  unfold reportEdit, editStartLine, editStartCol, editNewText, editEndLine.
  cbn [re_startLine re_startColumn re_newText re_endLine].
  repeat (split; [reflexivity|]).
  set (start := JS.num_or (range edit ≫= r_startLine) 1).
  destruct (range edit ≫= r_endLine) as [v|]; cbn [JS.num_or].
  - destruct (Z.eqb_spec v 0) as [->|Hv]; [unfold editStartLine; fold start; lia|].
    split; [now left | reflexivity].
  - unfold editStartLine; fold start; lia.
Qed.

(** ** Summary counters *)

Section SummaryFacts.

Variable lowerCase : string -> string.

Lemma countSeverity_counters counts severity :
  counters (countSeverity counts severity)
  = (counters counts + if counted severity then 1 else 0)%nat.
Proof.
  unfold countSeverity, counted, counters. cbn [existsb].
  repeat (destruct (String.eqb severity _); [cbn; lia|]). cbn. lia.
Qed.

Lemma fold_countSeverity_counters issues counts :
  counters (fold_left (fun counts issue =>
                         countSeverity counts (lowerCase (ai_severity issue)))
                      issues counts)
  = (counters counts
     + length (filter (fun issue => counted (lowerCase (ai_severity issue)) = true) issues))%nat.
Proof.
  revert counts. induction issues as [|issue issues IH]; intros counts; [simpl; lia|].
  cbn [fold_left]. rewrite IH, countSeverity_counters, filter_cons.
  destruct (counted (lowerCase (ai_severity issue))) eqn:Hc.
  - rewrite decide_True by reflexivity. cbn [length]. lia.
  - rewrite decide_False by discriminate. lia.
Qed.

End SummaryFacts.

(** X19: in a summary the five severity counters add up to the number
    of issues whose severity, in lower case, is one of [blocker],
    [critical], [major], [minor], [info]; the total counts every issue.
    So the counters never exceed the total, and they fall short of it by
    the number of issues of any other severity. *)
Theorem summary_counters_partition
        (lowerCase : string -> string) (issues : list AnalysisIssue) (rulesChecked : Z) :
  let summary := createSummary lowerCase issues rulesChecked in
  total summary = length issues
  /\ (counters (bySeverity summary)
      + length (filter (fun issue => counted (lowerCase (ai_severity issue)) = false) issues)
      = total summary)%nat.
Proof.
  cbn [createSummary total bySeverity]. split; [reflexivity|].
  rewrite fold_countSeverity_counters.
  change (counters {| blocker := 0; critical := 0; major := 0; minor := 0; info := 0 |})
    with 0%nat.
  induction issues as [|issue issues IH]; [reflexivity|].
  rewrite !filter_cons.
  destruct (counted (lowerCase (ai_severity issue))) eqn:Hc.
  - rewrite decide_True, decide_False by (try reflexivity; discriminate).
    cbn [length] in *. lia.
  - rewrite decide_False, decide_True by (try reflexivity; discriminate).
    cbn [length] in *. lia.
Qed.

(** ** Grouping the files of a batch by scope *)

Lemma groupPush_files groups scopeId filePath :
  Permutation (concat (map snd (groupPush groups scopeId filePath)))
              (concat (map snd groups) ++ [filePath]).
Proof.
  induction groups as [|[k scopeFiles] groups IH]; simpl; [reflexivity|].
  destruct (String.eqb k scopeId); simpl.
  - rewrite <- !app_assoc. apply Permutation_app_head, Permutation_app_comm.
  - rewrite IH. now rewrite app_assoc.
Qed.

Lemma groupPush_keys groups scopeId filePath :
  map fst (groupPush groups scopeId filePath)
  = if bool_decide (scopeId ∈ map fst groups) then map fst groups
    else map fst groups ++ [scopeId].
Proof.
  induction groups as [|[k scopeFiles] groups IH]; simpl; [reflexivity|].
  destruct (String.eqb_spec k scopeId) as [->|Hne]; simpl.
  - rewrite bool_decide_eq_true_2; [reflexivity | left].
  - rewrite IH. destruct (bool_decide (scopeId ∈ map fst groups)) eqn:Hin.
    + apply bool_decide_eq_true_1 in Hin.
      rewrite bool_decide_eq_true_2; [reflexivity | now right].
    + apply bool_decide_eq_false_1 in Hin.
      rewrite bool_decide_eq_false_2; [reflexivity|].
      rewrite not_elem_of_cons. split; congruence.
Qed.

Lemma groupPush_NoDup groups scopeId filePath :
  NoDup (map fst groups) -> NoDup (map fst (groupPush groups scopeId filePath)).
Proof.
  intros Hnd. rewrite groupPush_keys.
  destruct (bool_decide (scopeId ∈ map fst groups)) eqn:Hin; [exact Hnd|].
  apply bool_decide_eq_false_1 in Hin.
  apply NoDup_app. split; [exact Hnd|]. split; [|apply NoDup_singleton].
  intros x Hx Hx'. apply list_elem_of_singleton in Hx'. congruence.
Qed.

(** A group after a push is an old group, or the pushed id's group with the
    file at its end. *)
Lemma groupPush_elem_of groups scopeId filePath k scopeFiles :
  (k, scopeFiles) ∈ groupPush groups scopeId filePath ->
  (k, scopeFiles) ∈ groups
  \/ (k = scopeId
      /\ exists before, scopeFiles = before ++ [filePath]
                        /\ (before = [] \/ (k, before) ∈ groups)).
Proof.
  induction groups as [|[k' scopeFiles'] groups IH]; simpl.
  - intros Hin. apply list_elem_of_singleton in Hin as [= -> ->].
    right. split; [reflexivity|]. exists []. auto.
  - destruct (String.eqb_spec k' scopeId) as [->|Hne]; rewrite !elem_of_cons.
    + intros [[= -> ->]|Hin]; [|left; now right].
      right. split; [reflexivity|]. exists scopeFiles'. split; [reflexivity|].
      right. now left.
    + intros [Heq|Hin]; [left; now left|].
      destruct (IH Hin) as [Hold|(-> & before & -> & Hbefore)]; [left; now right|].
      right. split; [reflexivity|]. exists before. split; [reflexivity|].
      destruct Hbefore as [->|Hold]; [now left | right; now right].
Qed.

Lemma groupFilesByScope_grouped filePaths :
  forall seen groups w,
    grouped seen groups w ->
    exists groups' w',
      groupFilesByScope filePaths groups w = (inr groups', w')
      /\ grouped (seen ++ filePaths) groups' w'
      /\ w' = resolveAll filePaths w.
Proof.
  induction filePaths as [|filePath rest IH]; intros seen groups w Hinv.
  - exists groups, w. rewrite app_nil_r. auto.
  - cbn [groupFilesByScope resolveAll fold_left]. unfold bind at 1.
    destruct (getOrCreateScope_stored filePath w) as (scopeId & Hid & Hstored & Htruthy).
    destruct (getOrCreateScope filePath w) as [result w1] eqn:Hrun.
    cbn [fst snd] in *. subst result.
    destruct (IH (seen ++ [filePath]) (groupPush groups scopeId filePath) w1)
      as (groups' & w' & Hrest & Hgrouped & Hw').
    { destruct Hinv as (Hperm & Hnd & Hgroups). split; [|split].
      - now rewrite groupPush_files, Hperm.
      - now apply groupPush_NoDup.
      - intros k scopeFiles Hin.
        assert (Hkeeps : forall path id,
                   mapGet (scopeMap w) (NodePath.dirname path) = Some id
                   /\ JS.str_truthy (Some id) = true ->
                   mapGet (scopeMap w1) (NodePath.dirname path) = Some id
                   /\ JS.str_truthy (Some id) = true).
        { intros path id [Hget Hid]. split; [|exact Hid].
          pose proof (getOrCreateScope_keeps filePath w _ _ Hget Hid) as Hkept.
          now rewrite Hrun in Hkept. }
        apply groupPush_elem_of in Hin as [Hold|(-> & before & -> & Hbefore)].
        + destruct (Hgroups _ _ Hold) as (Hne & Hsub & Hfiles).
          split; [exact Hne|]. split; [now apply sublist_inserts_r|].
          intros path Hpath. apply Hkeeps, Hfiles, Hpath.
        + split; [now destruct before|]. split.
          * destruct Hbefore as [->|Hold]; [apply sublist_inserts_l; reflexivity|].
            destruct (Hgroups _ _ Hold) as (_ & Hsub & _).
            now apply sublist_app.
          * intros path Hpath. apply elem_of_app in Hpath as [Hpath|Hpath].
            -- destruct Hbefore as [->|Hold]; [inversion Hpath|].
               destruct (Hgroups _ _ Hold) as (_ & _ & Hfiles).
               apply Hkeeps, Hfiles, Hpath.
            -- apply list_elem_of_singleton in Hpath as ->. auto. }
    exists groups', w'. rewrite <- app_assoc in Hgrouped. auto.
Qed.

(** X20: a batch analysis groups its files so that every file path is in
    exactly one group (as often as it was given), the groups have distinct
    scope ids, none is empty, each lists its files in the order given, and
    each file sits under the scope id that a resolution of its path gives
    from then on; the grouping never fails. *)
Theorem batch_files_grouped_by_scope (filePaths : list string) (w : World) :
  exists filesByScope w',
    groupFilesByScope filePaths [] w = (inr filesByScope, w')
    /\ Permutation (concat (map snd filesByScope)) filePaths
    /\ NoDup (map fst filesByScope)
    /\ forall scopeId scopeFiles,
         (scopeId, scopeFiles) ∈ filesByScope ->
         scopeFiles <> [] /\ sublist scopeFiles filePaths
         /\ forall filePath,
              filePath ∈ scopeFiles -> getOrCreateScope filePath w' = (inr scopeId, w').
Proof.
  destruct (groupFilesByScope_grouped filePaths [] [] w)
    as (groups & w' & Hrun & (Hperm & Hnd & Hgroups) & _).
  { split; [reflexivity|]. split; [constructor|]. intros ? ? Hin. inversion Hin. }
  exists groups, w'. split; [exact Hrun|]. split; [exact Hperm|]. split; [exact Hnd|].
  intros scopeId scopeFiles Hin. destruct (Hgroups _ _ Hin) as (Hne & Hsub & Hfiles).
  split; [exact Hne|]. split; [exact Hsub|].
  intros filePath Hpath. destruct (Hfiles _ Hpath) as [Hget Htruthy].
  now apply getOrCreateScope_hit.
Qed.

(** ** Language detection *)

(** X21: whatever the path and its extension, the language the notifier
    announces to the backend is one of the ten enum names of
    [languageToEnum] or [UNKNOWN]: [detectLanguage] answers only with
    names that [languageToEnum] knows, or with [unknown]. *)
Theorem announced_language_is_an_enum_name (env : Env) (filePath : string) :
  languageToEnum (detectLanguage env filePath)
  ∈ ["JS"; "TS"; "PYTHON"; "JAVA"; "GO"; "PHP"; "RUBY"; "HTML"; "CSS"; "XML"; "UNKNOWN"].
Proof.
  unfold detectLanguage. generalize (toLowerCase (extname env filePath)). intros ext.
  unfold languageMap. cbn [mapGet].
  repeat (destruct (String.eqb _ ext);
          [vm_compute languageToEnum; set_solver|]).
  vm_compute languageToEnum. set_solver.
Qed.
